(** * The crawl / extract / chunk pipeline of [scraper.py]

    A shallow embedding of the scraper and the properties of its specification.

    Conventions.
    - A Python [str] is a Rocq [string]; a character is a code point below 256.
    - A Python exception is a value [Raise e] of the [result] type; a function
      that cannot raise returns its value directly.
    - Library code the scraper calls (urllib, bs4, langchain) is embedded from
      the library's algorithm, or taken as a section variable where the scraper
      only needs its interface; each place says which. *)

From Stdlib Require Import ZArith Ascii.
From stdpp Require Import gmap strings list pretty.

Local Open Scope Z_scope.
Set Warnings "-register-all".

(** ** Exceptions *)

Inductive exn : Set := TypeError | ValueError | IndexError.

Inductive result (A : Type) : Type :=
| Ok (a : A)
| Raise (e : exn).
Arguments Ok {A} a.
Arguments Raise {A} e.

Global Instance result_ret : MRet result := λ A a, Ok a.

Global Instance result_bind : MBind result := λ A B k r,
  match r with
  | Ok a => k a
  | Raise e => Raise e
  end.

Global Instance result_fmap : FMap result := λ A B f r,
  match r with
  | Ok a => Ok (f a)
  | Raise e => Raise e
  end.

(** ** Python string primitives *)

Module Py.

(** [str.isspace] on one code point below 256; [re]'s [\s] agrees with it. *)
Definition is_space (c : ascii) : bool :=
  match c with
  | "009" | "010" | "011" | "012" | "013"
  | "028" | "029" | "030" | "031" | " " | "133" | "160" => true
  | _ => false
  end%char.

Definition len (s : string) : Z := Z.of_nat (String.length s).

(** [s.startswith(p)] *)
Definition startswith (p s : string) : bool := String.prefix p s.

(** [s.endswith(suf)] *)
Fixpoint endswith (suf s : string) : bool :=
  if String.eqb s suf then true
  else match s with
       | EmptyString => false
       | String _ s' => endswith suf s'
       end.

(** [s.endswith((suf1, suf2, ...))] *)
Definition endswith_any (sufs : list string) (s : string) : bool :=
  existsb (λ suf, endswith suf s) sufs.

(** [sub in s] *)
Fixpoint contains (sub s : string) : bool :=
  if String.prefix sub s then true
  else match s with
       | EmptyString => false
       | String _ s' => contains sub s'
       end.

(** [c in s] for a single character *)
Fixpoint has_char (c : ascii) (s : string) : bool :=
  match s with
  | EmptyString => false
  | String a s' => if Ascii.eqb a c then true else has_char c s'
  end.

(** [s.split(c, 1)] when [c in s]: the text before and after the first [c]. *)
Fixpoint split_once (c : ascii) (s : string) : option (string * string) :=
  match s with
  | EmptyString => None
  | String a s' =>
      if Ascii.eqb a c then Some (EmptyString, s')
      else match split_once c s' with
           | Some (l, r) => Some (String a l, r)
           | None => None
           end
  end.

(** [(s[:i], s[i:])] for [i = s.rfind(c)], when [c in s]. *)
Fixpoint rsplit_at (c : ascii) (s : string) : option (string * string) :=
  match s with
  | EmptyString => None
  | String a s' =>
      match rsplit_at c s' with
      | Some (l, r) => Some (String a l, r)
      | None => if Ascii.eqb a c then Some (EmptyString, s) else None
      end
  end.

(** [s.split(c)[0]] *)
Definition before_first (c : ascii) (s : string) : string :=
  match split_once c s with
  | Some (l, _) => l
  | None => s
  end.

(** the longest prefix of characters satisfying [p], and the rest *)
Fixpoint span (p : ascii → bool) (s : string) : string * string :=
  match s with
  | EmptyString => (EmptyString, EmptyString)
  | String a s' =>
      if p a then let '(l, r) := span p s' in (String a l, r)
      else (EmptyString, s)
  end.

Fixpoint lstrip_by (p : ascii → bool) (s : string) : string :=
  match s with
  | EmptyString => EmptyString
  | String a s' => if p a then lstrip_by p s' else s
  end.

Fixpoint rstrip_by (p : ascii → bool) (s : string) : string :=
  match s with
  | EmptyString => EmptyString
  | String a s' =>
      match rstrip_by p s' with
      | EmptyString => if p a then EmptyString else String a EmptyString
      | r => String a r
      end
  end.

(** [s.strip()] *)
Definition strip (s : string) : string := rstrip_by is_space (lstrip_by is_space s).

(** [s.rstrip(';')] *)
Definition rstrip_char (c : ascii) (s : string) : string :=
  rstrip_by (λ a, Ascii.eqb a c) s.

(** [s.replace(c, "")] for a single character *)
Fixpoint remove_char (c : ascii) (s : string) : string :=
  match s with
  | EmptyString => EmptyString
  | String a s' => if Ascii.eqb a c then remove_char c s' else String a (remove_char c s')
  end.

Fixpoint forallb_str (p : ascii → bool) (s : string) : bool :=
  match s with
  | EmptyString => true
  | String a s' => p a && forallb_str p s'
  end.

Fixpoint map_str (f : ascii → ascii) (s : string) : string :=
  match s with
  | EmptyString => EmptyString
  | String a s' => String (f a) (map_str f s')
  end.

Definition code (c : ascii) : N := N_of_ascii c.

Definition is_upper (c : ascii) : bool := ((65 <=? code c) && (code c <=? 90))%N.
Definition is_lower (c : ascii) : bool := ((97 <=? code c) && (code c <=? 122))%N.
Definition is_digit (c : ascii) : bool := ((48 <=? code c) && (code c <=? 57))%N.
Definition is_ascii (c : ascii) : bool := (code c <? 128)%N.
Definition is_ascii_alpha (c : ascii) : bool := is_upper c || is_lower c.

(** [s.lower()] on ASCII letters *)
Definition lower_char (c : ascii) : ascii :=
  if is_upper c then ascii_of_N (code c + 32) else c.
Definition lower (s : string) : string := map_str lower_char s.

Definition newline : string := String "010" EmptyString.

(** the truth value of a list: [bool(l)] *)
Definition nonempty {A} (l : list A) : bool :=
  match l with [] => false | _ => true end.

(** [sep.join(l)] *)
Fixpoint join (sep : string) (l : list string) : string :=
  match l with
  | [] => EmptyString
  | [x] => x
  | x :: l' => x +:+ sep +:+ join sep l'
  end.

(** [re.sub(r'\s+', ' ', s)]: every maximal run of whitespace becomes one
    space. [in_run] tells that the previous character was whitespace. *)
Fixpoint sub_ws (in_run : bool) (s : string) : string :=
  match s with
  | EmptyString => EmptyString
  | String a s' =>
      if is_space a then
        if in_run then sub_ws true s' else String " " (sub_ws true s')
      else String a (sub_ws false s')
  end.

(** [s.split()]: the maximal runs of non-whitespace characters. [cur] is the
    word being read, reversed. *)
Fixpoint split_ws_go (cur : option string) (s : string) : list string :=
  match s with
  | EmptyString => option_list (String.rev <$> cur)
  | String a s' =>
      if is_space a then option_list (String.rev <$> cur) ++ split_ws_go None s'
      else split_ws_go (Some (String a (default EmptyString cur))) s'
  end.
Definition split_ws : string → list string := split_ws_go None.

End Py.

(** ** [urllib.parse] (CPython 3.12) *)

Module Urllib.

Record SplitResult : Set := mkSplit {
  s_scheme : string; s_netloc : string; s_path : string;
  s_query : string; s_fragment : string }.

Record ParseResult : Set := mkParse {
  scheme : string; netloc : string; path : string; params : string;
  query : string; fragment : string }.

(** [_WHATWG_C0_CONTROL_OR_SPACE] *)
Definition c0_control_or_space (c : ascii) : bool := (Py.code c <=? 32)%N.

(** [scheme_chars]: ASCII letters, digits and [+-.] *)
Definition scheme_char (c : ascii) : bool :=
  Py.is_ascii_alpha c || Py.is_digit c ||
  match c with "+" | "-" | "." => true | _ => false end%char.

(** [_splitnetloc(url, 2)] on a [url] that starts with [//] *)
Definition splitnetloc (url : string) : string * string :=
  Py.span (λ c, negb match c with "/" | "?" | "#" => true | _ => false end%char)
          (String.substring 2 (String.length url - 2) url).

Section Validation.

(** The two deep validations of a netloc, [_check_bracketed_netloc] (a host
    between brackets must be an IPv6 or IPvFuture literal) and [_checknetloc]
    (NFKC normalisation of a non-ASCII netloc), are not embedded: each is a
    variable that tells whether the check passes. *)
Variable bracketed_netloc_ok : string → bool.
Variable nfkc_netloc_ok : string → bool.

Definition urlsplit (url0 : string) : result SplitResult :=
  let url := Py.lstrip_by c0_control_or_space url0 in
  let url := Py.remove_char "010" (Py.remove_char "013" (Py.remove_char "009" url)) in
  let '(scheme, url) :=
    match Py.split_once ":" url with
    | Some (String a pre' as pre, rest) =>
        if Py.is_ascii a && Py.is_ascii_alpha a && Py.forallb_str scheme_char pre
        then (Py.lower pre, rest)
        else (EmptyString, url)
    | _ => (EmptyString, url)
    end in
  nu ← (if Py.startswith "//" url then
          let '(netloc, rest) := splitnetloc url in
          let ob := Py.has_char "[" netloc in
          let cb := Py.has_char "]" netloc in
          if (ob && negb cb) || (cb && negb ob) then Raise ValueError
          else if ob && cb && negb (bracketed_netloc_ok netloc) then Raise ValueError
          else Ok (netloc, rest)
        else Ok (EmptyString, url));
  let '(netloc, url) := nu in
  let '(url, fragment) :=
    match Py.split_once "#" url with
    | Some (l, r) => (l, r)
    | None => (url, EmptyString)
    end in
  let '(url, query) :=
    match Py.split_once "?" url with
    | Some (l, r) => (l, r)
    | None => (url, EmptyString)
    end in
  if negb (String.eqb netloc EmptyString) && negb (Py.forallb_str Py.is_ascii netloc)
     && negb (nfkc_netloc_ok netloc)
  then Raise ValueError
  else Ok (mkSplit scheme netloc url query fragment).

Definition uses_params : list string :=
  [""; "ftp"; "hdl"; "prospero"; "http"; "imap"; "https"; "shttp"; "rtsp";
   "rtspu"; "sip"; "sips"; "mms"; "sftp"; "tel"].

(** [_splitparams(url)], called when [';' in url] *)
Definition splitparams (url : string) : string * string :=
  match Py.rsplit_at "/" url with
  | Some (head, last) =>
      match Py.split_once ";" last with
      | Some (l, r) => (head +:+ l, r)
      | None => (url, EmptyString)
      end
  | None =>
      match Py.split_once ";" url with
      | Some (l, r) => (l, r)
      | None => (url, EmptyString)
      end
  end.

Definition urlparse (url : string) : result ParseResult :=
  r ← urlsplit url;
  let '(url, params) :=
    if bool_decide (s_scheme r ∈ uses_params) && Py.has_char ";" (s_path r)
    then splitparams (s_path r)
    else (s_path r, EmptyString) in
  Ok (mkParse (s_scheme r) (s_netloc r) url params (s_query r) (s_fragment r)).

End Validation.

End Urllib.

(** ** Configuration *)

Definition BASE_URL : string := "https://www.madewithnestle.ca/".
Definition REQUEST_DELAY : Z := 1.
Definition MAX_PAGES_TO_SCRAPE : nat := 50.

(** ** The scope filter *)

Section Filter.

Variable bracketed_netloc_ok : string → bool.
Variable nfkc_netloc_ok : string → bool.

Definition urlparse := Urllib.urlparse bracketed_netloc_ok nfkc_netloc_ok.

Definition binary_extensions : list string :=
  [".pdf"; ".jpg"; ".jpeg"; ".png"; ".gif"; ".zip"; ".mp4"; ".mov"; ".avi"].

Definition is_valid_url (url : string) : result bool :=
  parsed_base ← urlparse BASE_URL;
  parsed_url ← urlparse url;
  Ok (bool_decide (Urllib.scheme parsed_url ∈ ["http"; "https"]) &&
      bool_decide (Urllib.netloc parsed_url = Urllib.netloc parsed_base) &&
      negb (Py.endswith_any binary_extensions (Urllib.path parsed_url)) &&
      negb (negb (String.eqb (Urllib.query parsed_url) EmptyString)) &&
      negb (Py.contains "mailto:" url) &&
      negb (Py.contains "tel:" url)).

End Filter.

(** ** The parsed document ([bs4]) *)

Module Bs4.

(** A [NavigableString] proper, or one of its subclasses that [get_text]
    leaves out (Comment, Doctype, Declaration, ...). *)
Inductive string_kind : Set := PlainText | SpecialString.

(** The parse tree. [attrs] is the attribute dictionary of a tag; the
    [BeautifulSoup] object is the tag named [[document]]. *)
Inductive node : Type :=
| NavigableString (kind : string_kind) (s : string)
| Tag (name : string) (attrs : list (string * string)) (contents : list node).

Definition BeautifulSoup (contents : list node) : node := Tag "[document]" [] contents.

Fixpoint get_attr (k : string) (attrs : list (string * string)) : option string :=
  match attrs with
  | [] => None
  | (k', v) :: attrs' => if String.eqb k' k then Some v else get_attr k attrs'
  end.

(** the node and everything below it, in document order *)
Fixpoint subtree (n : node) : list node :=
  n :: match n with
       | Tag _ _ cs => flat_map subtree cs
       | NavigableString _ _ => []
       end.

(** [n.descendants] *)
Definition descendants (n : node) : list node :=
  match n with
  | Tag _ _ cs => flat_map subtree cs
  | NavigableString _ _ => []
  end.

Definition has_name (names : list string) (n : node) : bool :=
  match n with
  | Tag name _ _ => bool_decide (name ∈ names)
  | NavigableString _ _ => false
  end.

(** [n.find_all(names)] *)
Definition find_all (names : list string) (n : node) : list node :=
  List.filter (has_name names) (descendants n).

(** [n.find(name)], which is also [n.name] for [soup.title] and [soup.body] *)
Definition find (name : string) (n : node) : option node :=
  head (find_all [name] n).

(** [n.get_text()] *)
Fixpoint get_text (n : node) : string :=
  match n with
  | NavigableString PlainText s => s
  | NavigableString SpecialString _ => EmptyString
  | Tag _ _ cs => String.concat EmptyString (map get_text cs)
  end.

(** [n.string]: the single string below [n], [None] when a tag on the way
    has no child or several. *)
Fixpoint string_of (n : node) : option string :=
  match n with
  | NavigableString _ s => Some s
  | Tag _ _ [c] => string_of c
  | Tag _ _ _ => None
  end.

(** The CSS selectors the scraper uses: [name], [.class], [#id] and
    [name[attr="value"]]; a selector list [a, b] is a Rocq list. *)
Inductive selector : Set :=
| ByType (name : string)
| ByClass (class : string)
| ById (id : string)
| ByTypeAttr (name attr value : string).

Definition matches (sel : selector) (n : node) : bool :=
  match n with
  | NavigableString _ _ => false
  | Tag name attrs _ =>
      match sel with
      | ByType t => String.eqb name t
      | ByClass c =>
          match get_attr "class" attrs with
          | Some v => bool_decide (c ∈ Py.split_ws v)
          | None => false
          end
      | ById i =>
          match get_attr "id" attrs with
          | Some v => String.eqb v i
          | None => false
          end
      | ByTypeAttr t a v =>
          String.eqb name t &&
          match get_attr a attrs with
          | Some v' => String.eqb v' v
          | None => false
          end
      end
  end.

Definition matches_any (sels : list selector) (n : node) : bool :=
  existsb (λ sel, matches sel n) sels.

(** [n.select(sels)] *)
Definition select (sels : list selector) (n : node) : list node :=
  List.filter (matches_any sels) (descendants n).

(** [n.select_one(sels)] *)
Definition select_one (sels : list selector) (n : node) : option node :=
  head (select sels n).

(** [for element in n.select(sel): element.decompose()]: the tree without
    the elements that match. *)
Fixpoint decompose_all (sel : selector) (n : node) : node :=
  match n with
  | NavigableString _ _ => n
  | Tag name attrs cs =>
      Tag name attrs
          ((fix go (cs : list node) : list node :=
              match cs with
              | [] => []
              | c :: cs' => if matches sel c then go cs' else decompose_all sel c :: go cs'
              end) cs)
  end.

End Bs4.

(** ** The content extractor *)

Definition clean_text (text : string) : string :=
  let text := Py.sub_ws false text in
  let text := Py.strip text in
  text.

Definition boilerplate_selectors : list Bs4.selector :=
  [Bs4.ByType "header"; Bs4.ByType "footer"; Bs4.ByType "nav"; Bs4.ByType "aside";
   Bs4.ByType "script"; Bs4.ByType "style"; Bs4.ByClass "cookie-banner";
   Bs4.ByClass "site-header"; Bs4.ByClass "site-footer"; Bs4.ByClass "navigation";
   Bs4.ByClass "sidebar"].

Definition main_content_selectors : list Bs4.selector :=
  [Bs4.ByType "main"; Bs4.ByType "article"; Bs4.ByClass "main-content";
   Bs4.ByClass "page-content"; Bs4.ByClass "recipe-details";
   Bs4.ByClass "product-description"].

Definition ingredients_selectors : list Bs4.selector :=
  [Bs4.ByClass "recipe-ingredients"; Bs4.ByClass "ingredients-list"; Bs4.ById "ingredients"].

Definition instructions_selectors : list Bs4.selector :=
  [Bs4.ByClass "recipe-instructions"; Bs4.ByClass "method-list";
   Bs4.ById "instructions"; Bs4.ById "method"].

Definition product_selectors : list Bs4.selector :=
  [Bs4.ByClass "product-description"; Bs4.ByClass "description"].

Definition nutrition_selectors : list Bs4.selector :=
  [Bs4.ByClass "nutrition-facts"; Bs4.ByClass "nutrition-table";
   Bs4.ByTypeAttr "table" "summary" "Nutrition Information"].

(** headings, paragraphs and list items with more than three words *)
Definition general_texts (content_area : Bs4.node) : list string :=
  List.filter (λ text, negb (String.eqb text EmptyString) &&
                       (3 <? length (Py.split_ws text))%nat)
    (map (λ tag, clean_text (Bs4.get_text tag))
         (Bs4.find_all ["h1"; "h2"; "h3"; "h4"; "h5"; "h6"; "p"; "li"] content_area)).

Definition ingredients_texts (content_area : Bs4.node) : list string :=
  match Bs4.select_one ingredients_selectors content_area with
  | Some ingredients_section =>
      let ingredients_text :=
        foldl (λ acc item, acc +:+ clean_text (Bs4.get_text item) +:+ "; ")
              "Ingredients: " (Bs4.find_all ["li"; "p"] ingredients_section) in
      if (Py.len "Ingredients: " <? Py.len ingredients_text)
      then [Py.rstrip_char ";" (Py.strip ingredients_text)]
      else []
  | None => []
  end.

Definition instructions_texts (content_area : Bs4.node) : list string :=
  match Bs4.select_one instructions_selectors content_area with
  | Some instructions_section =>
      let '(instructions_text, _) :=
        foldl (λ '(acc, step_count) item,
                 let step_text := clean_text (Bs4.get_text item) in
                 if negb (String.eqb step_text EmptyString)
                 then (acc +:+ pretty step_count +:+ ". " +:+ step_text +:+ " ",
                       (step_count + 1)%nat)
                 else (acc, step_count))
              ("Instructions: ", 1%nat) (Bs4.find_all ["li"; "p"] instructions_section) in
      if (Py.len "Instructions: " <? Py.len instructions_text)
      then [Py.strip instructions_text]
      else []
  | None => []
  end.

Definition product_texts (content_area : Bs4.node) : list string :=
  match Bs4.select_one product_selectors content_area with
  | Some product_desc_el =>
      ["Product Description: " +:+ clean_text (Bs4.get_text product_desc_el)]
  | None => []
  end.

Definition nutrition_texts (content_area : Bs4.node) : list string :=
  match Bs4.select_one nutrition_selectors content_area with
  | Some nutrition_table =>
      let nutrition_text :=
        foldl (λ acc row,
                 let cells := map (λ cell, clean_text (Bs4.get_text cell))
                                  (Bs4.find_all ["td"; "th"] row) in
                 match cells with
                 | [] => acc
                 | _ => acc +:+ Py.join " | " cells +:+ "; "
                 end)
              "Nutritional Information: " (Bs4.find_all ["tr"] nutrition_table) in
      if (Py.len "Nutritional Information: " <? Py.len nutrition_text)
      then [Py.rstrip_char ";" (Py.strip nutrition_text)]
      else []
  | None => []
  end.

(** what one region appends to [extracted_texts] *)
Definition region_texts (content_area : Bs4.node) : list string :=
  general_texts content_area ++ ingredients_texts content_area ++
  instructions_texts content_area ++ product_texts content_area ++
  nutrition_texts content_area.

(** [soup.title.string if soup.title else "No Title"]; [None] is Python's *)
Definition title_string (soup : Bs4.node) : option string :=
  match Bs4.find "title" soup with
  | Some title => Bs4.string_of title
  | None => Some "No Title"
  end.

Definition extract_meaningful_content (soup : Bs4.node) (url : string)
  : result (string * string) :=
  title ← match title_string soup with
           | Some title => Ok (clean_text title)
           | None => Raise TypeError   (* re.sub on None *)
           end;
  let soup := foldl (λ soup selector, Bs4.decompose_all selector soup)
                    soup boilerplate_selectors in
  let main_content_elements := Bs4.select main_content_selectors soup in
  let main_content_elements :=
    match main_content_elements with
    | [] => option_list (Bs4.find "body" soup)
    | _ => main_content_elements
    end in
  let extracted_texts := flat_map region_texts main_content_elements in
  let full_page_text := Py.join Py.newline extracted_texts in
  Ok (title, full_page_text).

(** ** [langchain.text_splitter.RecursiveCharacterTextSplitter]

    The splitter the scraper instantiates, embedded from the library: the
    default separator list, [keep_separator=True], [strip_whitespace=True],
    separators read as literals ([is_separator_regex=False]). *)

Module Langchain.

(** [re.split] on a literal, non-empty separator: the texts between its
    successive occurrences, scanning from the left. [skip] counts the
    characters of a matched separator still to pass, [cur] is the piece
    being read, reversed. *)
Fixpoint re_split_go (sep : string) (skip : nat) (cur : string) (s : string)
  : list string :=
  match s with
  | EmptyString => [String.rev cur]
  | String a s' =>
      match skip with
      | S k => re_split_go sep k cur s'
      | O =>
          if String.prefix sep s
          then String.rev cur :: re_split_go sep (String.length sep - 1) EmptyString s'
          else re_split_go sep 0 (String a cur) s'
      end
  end.
Definition re_split (sep text : string) : list string :=
  re_split_go sep 0 EmptyString text.

(** [list(text)] *)
Fixpoint chars (s : string) : list string :=
  match s with
  | EmptyString => []
  | String a s' => String a EmptyString :: chars s'
  end.

(** [_split_text_with_regex(text, separator, keep_separator=True)]: every
    separator stays at the head of the piece that follows it. *)
Definition split_text_with_regex (text separator : string) : list string :=
  let splits :=
    if negb (String.eqb separator EmptyString) then
      match re_split separator text with
      | [] => []
      | first :: others => first :: map (λ piece, separator +:+ piece) others
      end
    else chars text in
  List.filter (λ s, negb (String.eqb s EmptyString)) splits.

Section Splitter.

Variable chunk_size : Z.
Variable chunk_overlap : Z.

Definition separators : list string :=
  [String "010" (String "010" EmptyString); String "010" EmptyString; " "; ""].

(** [_join_docs(docs, separator)] *)
Definition join_docs (docs : list string) (separator : string) : option string :=
  let text := Py.strip (Py.join separator docs) in
  if String.eqb text EmptyString then None else Some text.

(** The inner [while] of [_merge_splits], which drops pieces from the head of
    [current_doc]; [_len] is the length of the piece about to be added. *)
Fixpoint pop_while (separator_len _len total : Z) (current_doc : list string)
  : result (Z * list string) :=
  if (chunk_overlap <? total) ||
     ((chunk_size <? total + _len + (if Py.nonempty current_doc then separator_len else 0))
      && (0 <? total))
  then match current_doc with
       | [] => Raise IndexError   (* current_doc[0] *)
       | first :: rest =>
           pop_while separator_len _len
             (total - (Py.len first + (if (1 <? length current_doc)%nat
                                       then separator_len else 0)))
             rest
       end
  else Ok (total, current_doc).

(** The [for d in splits] loop of [_merge_splits] and its epilogue. *)
Fixpoint merge_loop (separator : string) (splits docs current_doc : list string)
  (total : Z) : result (list string) :=
  let separator_len := Py.len separator in
  match splits with
  | [] => Ok (docs ++ option_list (join_docs current_doc separator))
  | d :: splits' =>
      let _len := Py.len d in
      st ← (if (chunk_size <? total + _len +
                 (if Py.nonempty current_doc then separator_len else 0))
               && Py.nonempty current_doc
            then
              let docs := docs ++ option_list (join_docs current_doc separator) in
              '(total, current_doc) ← pop_while separator_len _len total current_doc;
              Ok (docs, current_doc, total)
            else Ok (docs, current_doc, total));
      let '(docs, current_doc, total) := st in
      let current_doc := current_doc ++ [d] in
      merge_loop separator splits' docs current_doc
        (total + (_len + (if (1 <? length current_doc)%nat then separator_len else 0)))
  end.

Definition merge_splits (splits : list string) (separator : string)
  : result (list string) :=
  merge_loop separator splits [] [] 0.

(** The [for s in splits] loop of [_split_text] and its epilogue.
    [new_separators] holds the recursive call when separators are left. *)
Fixpoint split_loop (new_separators : option (string → result (list string)))
  (splits good_splits : list string) : result (list string) :=
  match splits with
  | [] =>
      if Py.nonempty good_splits then merge_splits good_splits EmptyString else Ok []
  | s :: splits' =>
      if Py.len s <? chunk_size then split_loop new_separators splits' (good_splits ++ [s])
      else
        merged_text ← (if Py.nonempty good_splits
                       then merge_splits good_splits EmptyString else Ok []);
        other_info ← match new_separators with
                      | None => Ok [s]
                      | Some split_text => split_text s
                      end;
        final_chunks ← split_loop new_separators splits' [];
        Ok (merged_text ++ other_info ++ final_chunks)
  end.

(** [_split_text(text, separators)]. The scan for the first separator that
    is empty or occurs in [text] and the recursion on the separators after
    it both walk down the list; [last] is [separators[-1]], the separator
    used when the scan finds none. *)
Fixpoint split_text_from (last : string) (separators : list string) (text : string)
  : result (list string) :=
  match separators with
  | [] => split_loop None (split_text_with_regex text last) []
  | _s :: rest =>
      if String.eqb _s EmptyString
      then split_loop None (split_text_with_regex text _s) []
      else if Py.contains _s text
      then split_loop (match rest with
                       | [] => None
                       | _ => Some (split_text_from last rest)
                       end)
                      (split_text_with_regex text _s) []
      else split_text_from last rest text
  end.

(** [split_text(text)] *)
Definition split_text (text : string) : result (list string) :=
  split_text_from (List.last separators EmptyString) separators text.

(** [create_documents([text])]: the [page_content] of the documents; their
    metadata ([start_index]) is not read by the scraper. *)
Definition create_documents (text : string) : result (list string) :=
  split_text text.

End Splitter.

End Langchain.

(** ** The chunker *)

Record chunk : Set := mkChunk {
  url : string; title : string; chunk_id : nat; text : string }.

Definition chunk_page_content (title page_text url : string) : result (list chunk) :=
  if String.eqb page_text EmptyString then Ok []
  else
    docs ← Langchain.create_documents 2000 200 page_text;
    Ok (imap (λ i doc, mkChunk url title i doc) docs).

(** ** Link discovery and the crawl loop *)

(** What the crawl does to the outside world, in order: a call of
    [fetch_page] with the value it returned, a call of [time.sleep]. *)
Inductive event : Set :=
| EvFetch (url : string) (html_content : option string)
| EvSleep (seconds : Z).

(** [if html_content:] *)
Definition truthy (html_content : option string) : bool :=
  match html_content with
  | Some html => negb (String.eqb html EmptyString)
  | None => false
  end.

Section Crawler.

(** The environment of the scraper.
    - [W] is the state of the network and [fetch_page] a request to it, which
      returns the page text or [None] (the function catches every exception).
    - [parse_html] is [BeautifulSoup(html, 'html.parser')], on the markup
      the parser builds a tree for.
    - [urljoin] is [urllib.parse.urljoin]; it raises where [urlparse] does.
    - [set_iter] is the order in which Python iterates over a set of strings,
      given the elements in the order they were added. *)
Context {W : Type}.
Variable fetch_page : string → W → option string * W.
Variable parse_html : string → Bs4.node.
Variable urljoin : string → string → result string.
Variable set_iter : list string → list string.
Variable bracketed_netloc_ok : string → bool.
Variable nfkc_netloc_ok : string → bool.

(** [soup.find_all('a', href=True)], as the list of the [href] values *)
Definition anchor_hrefs (soup : Bs4.node) : list string :=
  omap (λ a_tag, match a_tag with
                 | Bs4.Tag _ attrs _ => Bs4.get_attr "href" attrs
                 | Bs4.NavigableString _ _ => None
                 end)
       (Bs4.find_all ["a"] soup).

(** the [for a_tag in ...] loop; [links] lists the elements added so far *)
Fixpoint collect_links (current_url : string) (hrefs links : list string)
  : result (list string) :=
  match hrefs with
  | [] => Ok links
  | href :: hrefs' =>
      absolute_link ← urljoin current_url href;
      valid ← is_valid_url bracketed_netloc_ok nfkc_netloc_ok absolute_link;
      collect_links current_url hrefs'
        (if valid : bool then links ++ [Py.before_first "#" absolute_link] else links)
  end.

Definition extract_links (html_content current_url : string) : result (list string) :=
  let soup := parse_html html_content in
  links ← collect_links current_url (anchor_hrefs soup) [];
  Ok (set_iter links).

Record state : Type := mkState {
  all_chunked_data : list chunk;
  urls_to_visit : list string;
  visited_urls : gset string;
  pages_scraped_count : nat;
  world : W;
  trace : list event }.

(** the [for link in new_links] loop *)
Definition enqueue (visited_urls : gset string) (urls_to_visit new_links : list string)
  : list string :=
  foldl (λ urls_to_visit link,
           if bool_decide (link ∉ visited_urls) && bool_decide (link ∉ urls_to_visit)
           then urls_to_visit ++ [link] else urls_to_visit)
        urls_to_visit new_links.

(** what a fetched page adds to [all_chunked_data] *)
Definition page_chunks (html_content current_url : string) : result (list chunk) :=
  let soup := parse_html html_content in
  '(page_title, page_text_content) ← extract_meaningful_content soup current_url;
  if negb (String.eqb page_text_content EmptyString)
  then chunk_page_content page_title page_text_content current_url
  else Ok [].

(** One run of the body of the [while] loop: the state it leaves and the
    exception that left it, if any. *)
Definition loop_body (st : state) : state * option exn :=
  match urls_to_visit st with
  | [] => (st, Some IndexError)
  | current_url :: urls =>
      if bool_decide (current_url ∈ visited_urls st)
      then (mkState (all_chunked_data st) urls (visited_urls st)
                    (pages_scraped_count st) (world st) (trace st), None)
      else
        let '(html_content, w) := fetch_page current_url (world st) in
        let tr := trace st ++ [EvFetch current_url html_content] in
        let visited := {[current_url]} ∪ visited_urls st in
        match html_content with
        | Some html =>
            if truthy html_content then
              let count := S (pages_scraped_count st) in
              match page_chunks html current_url with
              | Raise e =>
                  (mkState (all_chunked_data st) urls visited count w tr, Some e)
              | Ok chunks =>
                  let data := all_chunked_data st ++ chunks in
                  match extract_links html current_url with
                  | Raise e => (mkState data urls visited count w tr, Some e)
                  | Ok new_links =>
                      (mkState data (enqueue visited urls new_links) visited count w
                               (tr ++ [EvSleep REQUEST_DELAY]), None)
                  end
              end
            else (mkState (all_chunked_data st) urls visited
                          (pages_scraped_count st) w tr, None)
        | None =>
            (mkState (all_chunked_data st) urls visited
                     (pages_scraped_count st) w tr, None)
        end
  end.

Section Run.

Variable seed : string.
Variable budget : nat.

Definition initial (w : W) : state := mkState [] [seed] ∅ 0 w [].

(** [urls_to_visit and pages_scraped_count < MAX_PAGES_TO_SCRAPE] *)
Definition loop_cond (st : state) : bool :=
  Py.nonempty (urls_to_visit st) && (pages_scraped_count st <? budget)%nat.

(** How a run of the loop ends: the condition became false, or an exception
    left the loop. *)
Inductive outcome : Type :=
| Finished (st : state)
| Uncaught (e : exn) (st : state).

Definition final_state (o : outcome) : state :=
  match o with Finished st | Uncaught _ st => st end.

(** The [while] loop, run for at most [fuel] iterations. *)
Fixpoint main_loop (fuel : nat) (st : state) : option outcome :=
  if loop_cond st then
    match fuel with
    | O => None
    | S fuel' =>
        match loop_body st with
        | (st', None) => main_loop fuel' st'
        | (st', Some e) => Some (Uncaught e st')
        end
    end
  else Some (Finished st).

(** One iteration from a state at the head of the loop. *)
Definition step (st st' : state) : Prop :=
  loop_cond st = true ∧ loop_body st = (st', None).

(** The states the loop head is reached in. *)
Inductive reachable (w : W) : state → Prop :=
| reach_initial : reachable w (initial w)
| reach_step st st' : reachable w st → step st st' → reachable w st'.

End Run.

(** [main()], up to the point where the chunks are written out. *)
Definition main (fuel : nat) (w : W) : option outcome :=
  main_loop MAX_PAGES_TO_SCRAPE fuel (initial BASE_URL w).

End Crawler.

(** the URLs [fetch_page] was called with, in order *)
Definition fetched (tr : list event) : list string :=
  omap (λ ev, match ev with EvFetch url _ => Some url | EvSleep _ => None end) tr.

(** the number of calls of [fetch_page] that returned a page *)
Definition successful_fetches (tr : list event) : nat :=
  length (List.filter (λ ev, match ev with
                             | EvFetch _ html_content => truthy html_content
                             | EvSleep _ => false
                             end) tr).

(** ** Invariants and orders the properties speak of *)

(** the summed length of the pieces of a document under construction *)
Definition total_len (l : list string) : Z := foldr (λ s acc, Py.len s + acc) 0 l.

(** What Python promises about the iteration order of a set: every element
    that was added comes up, once. *)
Definition set_order_ok (set_iter : list string → list string) : Prop :=
  ∀ added, NoDup (set_iter added) ∧ ∀ x, x ∈ set_iter added ↔ x ∈ added.

(** The frontier invariant: no URL is queued twice, none is both queued and
    visited. *)
Definition frontier_ok {W : Type} (st : @state W) : Prop :=
  NoDup (urls_to_visit st) ∧ ∀ u, u ∈ urls_to_visit st → u ∉ visited_urls st.

(** The log invariant: no URL was fetched twice, every fetched URL is marked
    visited, and the page counter counts the fetches that returned a page. *)
Definition log_ok {W : Type} (st : @state W) : Prop :=
  NoDup (fetched (trace st)) ∧
  (∀ u, u ∈ fetched (trace st) → u ∈ visited_urls st) ∧
  pages_scraped_count st = successful_fetches (trace st).

(** ** Concrete pages and runs *)

Module Example.

Definition page_a : string := "https://www.madewithnestle.ca/a".
Definition page_b : string := "https://www.madewithnestle.ca/b".

(** The home page links to two pages of the site. *)
Definition home : Bs4.node :=
  Bs4.BeautifulSoup
    [Bs4.Tag "html" []
       [Bs4.Tag "head" [] [Bs4.Tag "title" [] [Bs4.NavigableString Bs4.PlainText "Home"]];
        Bs4.Tag "body" []
          [Bs4.Tag "a" [("href", page_a)] [Bs4.NavigableString Bs4.PlainText "A"];
           Bs4.Tag "a" [("href", page_b)] [Bs4.NavigableString Bs4.PlainText "B"]]]].

Definition parse_html (html : string) : Bs4.node :=
  if String.eqb html "home" then home else Bs4.BeautifulSoup [].

(** every [href] of the example is absolute, and [urljoin] returns it *)
Definition urljoin (base href : string) : result string := Ok href.

Definition accept (netloc : string) : bool := true.

(** two iteration orders: first added first, and last added first *)
Definition first_seen (added : list string) : list string := remove_dups added.
Definition last_seen (added : list string) : list string := reverse (remove_dups added).

(** A network on which page [a] cannot be fetched. *)
Definition fetch_page (url : string) (w : unit) : option string * unit :=
  if String.eqb url BASE_URL then (Some "home", w)
  else if String.eqb url page_a then (None, w)
  else if String.eqb url page_b then (Some "page b", w)
  else (None, w).

Definition main (fuel : nat) :=
  main fetch_page parse_html urljoin first_seen accept accept fuel ().

End Example.

(** The state the example run is in after its first iteration, which fetched
    the home page and queued its two links. *)
Definition after_home : @state unit :=
  (loop_body Example.fetch_page Example.parse_html Example.urljoin Example.first_seen
             Example.accept Example.accept (initial BASE_URL ())).1.

(** Documents for the content extractor. *)

Module Pages.

Definition text (s : string) : Bs4.node := Bs4.NavigableString Bs4.PlainText s.

(** [<html><head><title></title></head><body></body></html>] *)
Definition empty_title : Bs4.node :=
  Bs4.BeautifulSoup
    [Bs4.Tag "html" [] [Bs4.Tag "head" [] [Bs4.Tag "title" [] []]; Bs4.Tag "body" [] []]].

(** [<main><ul class="ingredients-list"><li> </li></ul></main>] *)
Definition blank_ingredient : Bs4.node :=
  Bs4.BeautifulSoup
    [Bs4.Tag "main" []
       [Bs4.Tag "ul" [("class", "ingredients-list")] [Bs4.Tag "li" [] [text " "]]]].

(** [<main><table class="nutrition-facts"><tr><td> </td></tr></table></main>] *)
Definition blank_nutrition : Bs4.node :=
  Bs4.BeautifulSoup
    [Bs4.Tag "main" []
       [Bs4.Tag "table" [("class", "nutrition-facts")]
          [Bs4.Tag "tr" [] [Bs4.Tag "td" [] [text " "]]]]].

End Pages.

(** ** Notions the further properties speak of *)

(** Every whitespace character of [s] is one space that follows a character
    which is no whitespace; [prev] tells that the character before [s] was
    whitespace. *)
Fixpoint single_spaced (prev : bool) (s : string) : bool :=
  match s with
  | EmptyString => true
  | String a s' =>
      if Py.is_space a then Ascii.eqb a " " && negb prev && single_spaced true s'
      else single_spaced false s'
  end.

(** [s] is empty or starts with a character that does not satisfy [p] *)
Definition starts_clean (p : ascii → bool) (s : string) : bool :=
  match s with
  | EmptyString => true
  | String a _ => negb (p a)
  end.

Section LinkRelations.

Variable urljoin : string → string → result string.
Variable bracketed_netloc_ok : string → bool.
Variable nfkc_netloc_ok : string → bool.

(** [link] is what the loop of [extract_links] adds for the anchor [href]. *)
Definition link_of (current_url href link : string) : Prop :=
  ∃ absolute_link,
    urljoin current_url href = Ok absolute_link ∧
    is_valid_url bracketed_netloc_ok nfkc_netloc_ok absolute_link = Ok true ∧
    link = Py.before_first "#" absolute_link.

(** the anchor [href] makes the loop of [extract_links] raise *)
Definition href_raises (current_url href : string) (e : exn) : Prop :=
  urljoin current_url href = Raise e ∨
  ∃ absolute_link,
    urljoin current_url href = Ok absolute_link ∧
    is_valid_url bracketed_netloc_ok nfkc_netloc_ok absolute_link = Raise e.

End LinkRelations.

(** the seconds the crawl has slept *)
Definition slept (tr : list event) : Z :=
  foldr (λ ev acc, match ev with EvSleep seconds => seconds + acc | EvFetch _ _ => acc end)
        0 tr.

(** the pages [fetch_page] returned, with their URLs, in order *)
Definition pages_fetched (tr : list event) : list (string * string) :=
  omap (λ ev, match ev with
              | EvFetch url (Some html) =>
                  if truthy (Some html) then Some (url, html) else None
              | _ => None
              end) tr.

(** a chunk as [_join_docs] makes it: not empty, no whitespace at its ends *)
Definition tidy (c : string) : Prop := c ≠ "" ∧ Py.strip c = c.

(** [c] is a contiguous part of [t] *)
Definition occurs_in (t c : string) : Prop := ∃ l r, t = l +:+ c +:+ r.

(** A site of one page, which has a paragraph and no link. *)
Module Single.

Definition page : Bs4.node :=
  Bs4.BeautifulSoup
    [Bs4.Tag "html" []
       [Bs4.Tag "body" []
          [Bs4.Tag "p" [] [Pages.text "Made with care in Canada"]]]].

Definition fetch_page (url : string) (w : unit) : option string * unit :=
  (Some "page", w).

Definition parse_html (html : string) : Bs4.node := page.

(** the state after the first iteration of the crawl of this site *)
Definition after_page : @state unit :=
  (loop_body fetch_page parse_html Example.urljoin Example.first_seen
             Example.accept Example.accept (initial BASE_URL ())).1.

End Single.

(** A site whose page [a] has an empty title element. *)
Module Crash.

Definition fetch_page (url : string) (w : unit) : option string * unit :=
  if String.eqb url BASE_URL then (Some "home", w)
  else if String.eqb url Example.page_a then (Some "a", w)
  else if String.eqb url Example.page_b then (Some "page b", w)
  else (None, w).

Definition parse_html (html : string) : Bs4.node :=
  if String.eqb html "home" then Example.home
  else if String.eqb html "a" then Pages.empty_title
  else Bs4.BeautifulSoup [].

Definition main (fuel : nat) :=
  main fetch_page parse_html Example.urljoin Example.first_seen
       Example.accept Example.accept fuel ().

End Crash.

(** * Properties *)

(** ** Strings *)

Section StringFacts.

Lemma app_empty_l (s : string) : "" +:+ s = s.
Proof. reflexivity. Qed.

Lemma app_String (a : ascii) (s t : string) : String a s +:+ t = String a (s +:+ t).
Proof. reflexivity. Qed.

Lemma app_empty_r (s : string) : s +:+ "" = s.
Proof. induction s as [|a s IH]; [done|]. by rewrite app_String, IH. Qed.

Lemma app_assoc_str (s t u : string) : (s +:+ t) +:+ u = s +:+ t +:+ u.
Proof. induction s as [|a s IH]; [done|]. by rewrite !app_String, IH. Qed.

Lemma length_app_str (s t : string) :
  String.length (s +:+ t) = (String.length s + String.length t)%nat.
Proof. induction s as [|a s IH]; [done|]. rewrite app_String. simpl. by rewrite IH. Qed.

Lemma prefix_spec (p s : string) :
  String.prefix p s = true ↔ ∃ r, s = p +:+ r.
Proof.
  revert s. induction p as [|a p IH]; intros s.
  - destruct s; simpl; split; eauto.
  - destruct s as [|b s]; simpl.
    + split; [done | intros [r Hr]; discriminate].
    + destruct (ascii_dec a b) as [->|Hne].
      * rewrite IH. split; intros [r Hr]; exists r.
        -- by rewrite Hr.
        -- rewrite app_String in Hr. by injection Hr.
      * split; [done | intros [r Hr]]. rewrite app_String in Hr. congruence.
Qed.

Lemma endswith_unfold (suf s : string) :
  Py.endswith suf s =
  if String.eqb s suf then true
  else match s with "" => false | String _ s' => Py.endswith suf s' end.
Proof. by destruct s. Qed.

Lemma contains_unfold (sub s : string) :
  Py.contains sub s =
  if String.prefix sub s then true
  else match s with "" => false | String _ s' => Py.contains sub s' end.
Proof. by destruct s. Qed.

Lemma endswith_spec (suf s : string) :
  Py.endswith suf s = true ↔ ∃ p, s = p +:+ suf.
Proof.
  induction s as [|a s IH]; rewrite endswith_unfold.
  - destruct (String.eqb_spec "" suf) as [<-|Hne].
    + split; [by exists "" | done].
    + split; [done|]. intros [[|b p] Hp]; [by rewrite app_empty_l in Hp|].
      by rewrite app_String in Hp.
  - destruct (String.eqb_spec (String a s) suf) as [<-|Hne].
    + split; [by exists "" | done].
    + rewrite IH. split.
      * intros [p ->]. by exists (String a p).
      * intros [[|b p] Hp]; [by rewrite app_empty_l in Hp|].
        rewrite app_String in Hp. injection Hp as _ ->. by exists p.
Qed.

Lemma endswith_any_spec (sufs : list string) (s : string) :
  Py.endswith_any sufs s = true ↔ ∃ suf p, suf ∈ sufs ∧ s = p +:+ suf.
Proof.
  unfold Py.endswith_any. rewrite existsb_exists. split.
  - intros (suf & Hin & [p Hp]%endswith_spec). exists suf, p.
    by rewrite list_elem_of_In.
  - intros (suf & p & Hin & Hp). exists suf. rewrite <- list_elem_of_In.
    split; [done|]. apply endswith_spec. by exists p.
Qed.

Lemma contains_spec (sub s : string) :
  Py.contains sub s = true ↔ ∃ l r, s = l +:+ sub +:+ r.
Proof.
  induction s as [|a s IH]; rewrite contains_unfold.
  - destruct (String.prefix sub "") eqn:Hp.
    + apply prefix_spec in Hp as [r Hr]. split; [|done]. intros _. by exists "", r.
    + split; [done|]. intros ([|b l] & r & Hs); [|by rewrite app_String in Hs].
      assert (String.prefix sub "" = true) by (apply prefix_spec; eauto). congruence.
  - destruct (String.prefix sub (String a s)) eqn:Hp.
    + apply prefix_spec in Hp as [r Hr]. split; [|done]. intros _. by exists "", r.
    + rewrite IH. split.
      * intros (l & r & ->). by exists (String a l), r.
      * intros ([|b l] & r & Hs).
        -- assert (String.prefix sub (String a s) = true) by (apply prefix_spec; eauto).
           congruence.
        -- rewrite app_String in Hs. injection Hs as _ ->. by exists l, r.
Qed.

End StringFacts.

(** ** The scope filter *)

Section FilterFacts.

Variable bracketed_netloc_ok : string → bool.
Variable nfkc_netloc_ok : string → bool.

Local Abbreviation parse := (urlparse bracketed_netloc_ok nfkc_netloc_ok).
Local Abbreviation valid := (is_valid_url bracketed_netloc_ok nfkc_netloc_ok).

(** The host of the seed, as [urlparse] reads it off [BASE_URL]. *)
Lemma urlparse_BASE_URL :
  parse BASE_URL = Ok (Urllib.mkParse "https" "www.madewithnestle.ca" "/" "" "" "").
Proof. reflexivity. Qed.

(** [is_valid_url] is the conjunction of its six tests, each read as a
    property of the parsed URL or of the URL's text. *)
Lemma is_valid_url_true_iff (url : string) (p : Urllib.ParseResult) :
  parse url = Ok p →
  ∃ b, valid url = Ok b ∧
    (b = true ↔
       Urllib.scheme p ∈ ["http"; "https"] ∧
       Urllib.netloc p = "www.madewithnestle.ca" ∧
       ¬ (∃ ext pre, ext ∈ binary_extensions ∧ Urllib.path p = pre +:+ ext) ∧
       Urllib.query p = "" ∧
       ¬ (∃ l r, url = l +:+ "mailto:" +:+ r) ∧
       ¬ (∃ l r, url = l +:+ "tel:" +:+ r)).
Proof.
  intros Hp. unfold is_valid_url. rewrite urlparse_BASE_URL, Hp.
  cbn -[Py.endswith_any Py.contains].
  eexists. split; [reflexivity|].
  rewrite !andb_true_iff, !negb_true_iff, !bool_decide_eq_true.
  rewrite <- !not_true_iff_false.
  rewrite endswith_any_spec, !contains_spec.
  destruct (String.eqb_spec (Urllib.query p) ""); simpl; intuition congruence.
Qed.

End FilterFacts.
Section FilterClaim.

Variable bracketed_netloc_ok : string → bool.
Variable nfkc_netloc_ok : string → bool.

Local Abbreviation parse := (urlparse bracketed_netloc_ok nfkc_netloc_ok).
Local Abbreviation valid := (is_valid_url bracketed_netloc_ok nfkc_netloc_ok).

(** C5 (amended). For every candidate URL that [urlparse] accepts,
    [is_valid_url] returns false when the URL's netloc is not the netloc of
    the seed, [www.madewithnestle.ca] (the netloc as a whole: a port, a user
    name or another letter case make it differ), when its path ends in one of
    the binary extensions, when its query string is not empty, and when the
    URL's text contains [mailto:] or [tel:] (so for every mailto/tel link);
    and it returns true for every http(s) URL with that netloc, a path that
    ends in none of the binary extensions and an empty query string, whose
    text contains neither [mailto:] nor [tel:]. *)
Theorem is_valid_url_scope (url : string) (p : Urllib.ParseResult) :
  parse url = Ok p →
  (Urllib.netloc p ≠ "www.madewithnestle.ca" → valid url = Ok false) ∧
  ((∃ ext pre, ext ∈ binary_extensions ∧ Urllib.path p = pre +:+ ext) →
   valid url = Ok false) ∧
  (Urllib.query p ≠ "" → valid url = Ok false) ∧
  ((∃ l r, url = l +:+ "mailto:" +:+ r) ∨ (∃ l r, url = l +:+ "tel:" +:+ r) →
   valid url = Ok false) ∧
  (Urllib.scheme p ∈ ["http"; "https"] →
   Urllib.netloc p = "www.madewithnestle.ca" →
   ¬ (∃ ext pre, ext ∈ binary_extensions ∧ Urllib.path p = pre +:+ ext) →
   Urllib.query p = "" →
   ¬ (∃ l r, url = l +:+ "mailto:" +:+ r) →
   ¬ (∃ l r, url = l +:+ "tel:" +:+ r) →
   valid url = Ok true).
Proof.
  intros Hp. destruct (is_valid_url_true_iff _ _ url p Hp) as (b & -> & Hb).
  destruct b.
  - assert (Ht : true = true) by done. apply Hb in Ht.
    repeat split; intros; try reflexivity; exfalso; intuition.
  - repeat split; intros; try reflexivity; exfalso.
    assert (false = true); [apply Hb; intuition | discriminate].
Qed.

End FilterClaim.

(** A page of the site is in scope. *)
Lemma is_valid_url_scope_witness :
  urlparse (λ _, true) (λ _, true) "https://www.madewithnestle.ca/recipes/" =
    Ok (Urllib.mkParse "https" "www.madewithnestle.ca" "/recipes/" "" "" "") ∧
  is_valid_url (λ _, true) (λ _, true) "https://www.madewithnestle.ca/recipes/" = Ok true.
Proof.
  split; [reflexivity|].
  refine (proj2 (proj2 (proj2 (proj2
    (is_valid_url_scope (λ _, true) (λ _, true)
       "https://www.madewithnestle.ca/recipes/"
       (Urllib.mkParse "https" "www.madewithnestle.ca" "/recipes/" "" "" "")
       eq_refl)))) _ _ _ _ _ _).
  - simpl. set_solver.
  - reflexivity.
  - intros H%endswith_any_spec. vm_compute in H. discriminate.
  - reflexivity.
  - intros H%contains_spec. vm_compute in H. discriminate.
  - intros H%contains_spec. vm_compute in H. discriminate.
Defined.

(** C5, as stated, fails: a same-host https URL with a clean path and no
    query is rejected because its text contains [tel:]. *)
Lemma is_valid_url_rejects_hotel :
  ∃ p, urlparse (λ _, true) (λ _, true) "https://www.madewithnestle.ca/hotel:deals" = Ok p ∧
       Urllib.scheme p = "https" ∧
       Urllib.netloc p = "www.madewithnestle.ca" ∧
       Py.endswith_any binary_extensions (Urllib.path p) = false ∧
       Urllib.query p = "" ∧
       is_valid_url (λ _, true) (λ _, true)
         "https://www.madewithnestle.ca/hotel:deals" = Ok false.
Proof. eexists. split; [reflexivity|]. by vm_compute. Qed.
(** ** The splitter *)

Section StripFacts.

Lemma len_nonneg (s : string) : 0 ≤ Py.len s.
Proof. unfold Py.len. lia. Qed.

Lemma len_app (s t : string) : Py.len (s +:+ t) = Py.len s + Py.len t.
Proof. unfold Py.len. rewrite length_app_str. lia. Qed.

Lemma lstrip_by_length (p : ascii → bool) (s : string) :
  (String.length (Py.lstrip_by p s) ≤ String.length s)%nat.
Proof. induction s as [|a s IH]; simpl; [lia|]. destruct (p a); simpl; lia. Qed.

Lemma rstrip_by_length (p : ascii → bool) (s : string) :
  (String.length (Py.rstrip_by p s) ≤ String.length s)%nat.
Proof.
  induction s as [|a s IH]; simpl; [lia|].
  destruct (Py.rstrip_by p s); [destruct (p a)|]; simpl in *; lia.
Qed.

Lemma strip_len (s : string) : Py.len (Py.strip s) ≤ Py.len s.
Proof.
  unfold Py.len, Py.strip.
  pose proof (rstrip_by_length Py.is_space (Py.lstrip_by Py.is_space s)).
  pose proof (lstrip_by_length Py.is_space s). lia.
Qed.

End StripFacts.

Section SplitterFacts.

Variable chunk_size : Z.
Variable chunk_overlap : Z.
Hypothesis overlap_nonneg : 0 ≤ chunk_overlap.
Hypothesis size_gt_1 : 1 < chunk_size.

Local Abbreviation fits := (λ c : string, Py.len c ≤ chunk_size).

Lemma total_len_nonneg (l : list string) : 0 ≤ total_len l.
Proof. induction l as [|s l IH]; simpl; [lia|]. pose proof (len_nonneg s). lia. Qed.

Lemma total_len_app (l k : list string) : total_len (l ++ k) = total_len l + total_len k.
Proof. induction l as [|s l IH]; simpl; lia. Qed.

Lemma join_empty_len (l : list string) : Py.len (Py.join "" l) = total_len l.
Proof.
  induction l as [|s [|s' l] IH]; [done| |].
  - simpl. lia.
  - change (Py.join "" (s :: s' :: l)) with (s +:+ "" +:+ Py.join "" (s' :: l)).
    rewrite app_empty_l, len_app, IH. reflexivity.
Qed.

Lemma join_docs_fits (cur : list string) :
  total_len cur ≤ chunk_size →
  Forall fits (option_list (Langchain.join_docs cur "")).
Proof.
  intros Hle. unfold Langchain.join_docs.
  destruct (String.eqb _ _); simpl; [constructor|].
  repeat constructor. pose proof (strip_len (Py.join "" cur)).
  rewrite join_empty_len in H. lia.
Qed.

Lemma pop_while_ok (_len total : Z) (current_doc : list string) :
  total = total_len current_doc →
  ∃ total' current_doc',
    Langchain.pop_while chunk_size chunk_overlap 0 _len total current_doc =
      Ok (total', current_doc') ∧
    total' = total_len current_doc' ∧
    (total' + _len ≤ chunk_size ∨ total' = 0).
Proof.
  revert total. induction current_doc as [|first rest IH]; intros total Ht.
  - simpl in Ht. subst total. simpl.
    replace (chunk_overlap <? 0) with false by lia. simpl.
    rewrite andb_false_r. exists 0, []. split_and!; [done..|by right].
  - cbn [Langchain.pop_while].
    destruct (_ || _) eqn:Hc.
    + apply IH. simpl in Ht. destruct (_ <? _)%nat; lia.
    + exists total, (first :: rest). split_and!; [done..|].
      apply orb_false_iff in Hc as [_ Hc].
      pose proof (total_len_nonneg (first :: rest)).
      apply andb_false_iff in Hc as [Hc|Hc]; simpl in Hc; lia.
Qed.

Lemma merge_loop_ok (splits docs current_doc : list string) (total : Z) :
  Forall fits splits → Forall fits docs →
  total = total_len current_doc → total ≤ chunk_size →
  ∃ l, Langchain.merge_loop chunk_size chunk_overlap "" splits docs current_doc total
         = Ok l ∧ Forall fits l.
Proof.
  revert docs current_doc total.
  induction splits as [|d splits IH]; intros docs cur total Hs Hd Ht Hle.
  - simpl. eexists. split; [done|]. apply Forall_app. split; [done|].
    apply join_docs_fits. lia.
  - apply Forall_cons in Hs as [Hdfit Hs]. cbn [Langchain.merge_loop].
    change (Py.len "") with 0.
    destruct (_ && _) eqn:Hc.
    + destruct (pop_while_ok (Py.len d) total cur Ht) as (t' & cur' & -> & Ht' & Hex).
      cbn [mbind result_bind].
      apply IH; [done| |..].
      * apply Forall_app. split; [done|]. apply join_docs_fits. lia.
      * rewrite total_len_app. simpl. destruct (_ <? _)%nat; lia.
      * destruct (_ <? _)%nat; lia.
    + cbn [mbind result_bind]. apply IH; [done..| |].
      * rewrite total_len_app. simpl. destruct (_ <? _)%nat; lia.
      * apply andb_false_iff in Hc as [Hc|Hc].
        -- destruct (Py.nonempty cur), (_ <? _)%nat; lia.
        -- destruct cur; [|done]. simpl in Ht. simpl. lia.
Qed.

Lemma merge_splits_ok (splits : list string) :
  Forall fits splits →
  ∃ l, Langchain.merge_splits chunk_size chunk_overlap splits "" = Ok l ∧ Forall fits l.
Proof. intros Hs. apply merge_loop_ok; [done|constructor|done|lia]. Qed.

End SplitterFacts.
Section SplitTextFacts.

Variable chunk_size : Z.
Variable chunk_overlap : Z.
Hypothesis overlap_nonneg : 0 ≤ chunk_overlap.
Hypothesis size_gt_1 : 1 < chunk_size.

Local Abbreviation fits := (λ c : string, Py.len c ≤ chunk_size).
Local Abbreviation small := (λ c : string, Py.len c < chunk_size).

Lemma small_fits (l : list string) : Forall small l → Forall fits l.
Proof. intros H. eapply Forall_impl; [done|]. intros s. simpl. lia. Qed.

Lemma chars_small (text : string) : Forall small (Langchain.chars text).
Proof.
  induction text as [|a text IH]; simpl; constructor; [|done].
  unfold Py.len. simpl. lia.
Qed.

Lemma split_loop_ok (new_separators : option (string → result (list string)))
  (splits good_splits : list string) :
  Forall small good_splits →
  match new_separators with
  | None => Forall small splits
  | Some split_text => ∀ s, ∃ l, split_text s = Ok l ∧ Forall fits l
  end →
  ∃ l, Langchain.split_loop chunk_size chunk_overlap new_separators splits good_splits
         = Ok l ∧ Forall fits l.
Proof.
  revert good_splits.
  induction splits as [|s splits IH]; intros good Hgood Hrec; cbn [Langchain.split_loop].
  - destruct (Py.nonempty good).
    + apply merge_splits_ok; try done. by apply small_fits.
    + by exists [].
  - destruct (Py.len s <? chunk_size) eqn:Hs.
    + apply IH.
      * apply Forall_app. split; [done|]. repeat constructor. lia.
      * destruct new_separators; [done|]. by apply Forall_cons in Hrec as [_ ?].
    + assert (∃ m, (if Py.nonempty good
                    then Langchain.merge_splits chunk_size chunk_overlap good ""
                    else Ok []) = Ok m ∧ Forall fits m) as (m & -> & Hm).
      { destruct (Py.nonempty good); [|by exists []].
        apply merge_splits_ok; try done. by apply small_fits. }
      cbn [mbind result_bind].
      destruct new_separators as [split_text|].
      * destruct (Hrec s) as (o & -> & Ho). cbn [mbind result_bind].
        destruct (IH [] (Forall_nil_2 _) Hrec) as (r & -> & Hr).
        cbn [mbind result_bind]. eexists. split; [done|].
        by rewrite !Forall_app.
      * apply Forall_cons in Hrec as [Hsmall _]. lia.
Qed.

Lemma split_text_from_ok (last : string) (separators : list string) (text : string) :
  "" ∈ separators →
  ∃ l, Langchain.split_text_from chunk_size chunk_overlap last separators text = Ok l ∧
       Forall fits l.
Proof.
  revert text. induction separators as [|_s rest IH]; intros text Hin.
  - by apply elem_of_nil in Hin.
  - cbn [Langchain.split_text_from].
    destruct (String.eqb_spec _s "") as [->|Hne].
    + apply split_loop_ok; [constructor|].
      unfold Langchain.split_text_with_regex. simpl.
      apply Forall_forall. intros s [Hs _]%list_elem_of_In%filter_In.
      pose proof (chars_small text) as Hc. rewrite Forall_forall in Hc.
      by apply Hc, list_elem_of_In.
    + apply elem_of_cons in Hin as [Heq|Hin]; [done|].
      destruct (Py.contains _s text); [|by apply IH].
      apply split_loop_ok; [constructor|].
      destruct rest as [|r rest']; [by apply elem_of_nil in Hin|].
      intros s. by apply IH.
Qed.

Lemma split_text_ok (text : string) :
  ∃ l, Langchain.split_text chunk_size chunk_overlap text = Ok l ∧ Forall fits l.
Proof. apply split_text_from_ok. unfold Langchain.separators. set_solver. Qed.

End SplitTextFacts.

(** ** The chunker *)

Lemma chunk_page_content_ok (page_title page_text page_url : string) :
  ∃ docs,
    chunk_page_content page_title page_text page_url =
      Ok (imap (λ i doc, mkChunk page_url page_title i doc) docs) ∧
    Forall (λ doc, Py.len doc ≤ 2000) docs ∧
    (page_text = "" → docs = []).
Proof.
  unfold chunk_page_content.
  destruct (String.eqb_spec page_text "") as [->|Hne].
  - by exists [].
  - unfold Langchain.create_documents.
    destruct (split_text_ok 2000 200 ltac:(lia) ltac:(lia) page_text) as (l & -> & Hl).
    by exists l.
Qed.

(** C6. Every chunk of a page, chunked with maximum size 2000 and overlap
    200, has a text of length at most 2000. The exception the claim allows
    never arises: the last separator of the splitter is the empty one, which
    cuts between any two characters, so no unit of text is indivisible, and
    no text is dropped or truncated to make it fit. *)
Theorem chunk_length_bound (page_title page_text page_url : string) :
  ∃ chunks,
    chunk_page_content page_title page_text page_url = Ok chunks ∧
    ∀ c, c ∈ chunks → Py.len (text c) ≤ 2000.
Proof.
  destruct (chunk_page_content_ok page_title page_text page_url) as (docs & -> & Hd & _).
  eexists. split; [done|]. intros c Hc.
  apply list_elem_of_lookup in Hc as [i Hi].
  apply list_lookup_imap_Some in Hi as (doc & Hdoc & ->). simpl.
  rewrite Forall_forall in Hd. apply Hd. by eapply list_elem_of_lookup_2.
Qed.

(** C7. On an empty body text the chunker returns the empty sequence, without
    error; otherwise (and always) it returns a sequence in which the chunk at
    0-based position [i] has [chunk_id = i] and carries the title and the
    url it was given. *)
Theorem chunk_ids_and_metadata (page_title page_text page_url : string) :
  chunk_page_content page_title "" page_url = Ok [] ∧
  ∃ chunks,
    chunk_page_content page_title page_text page_url = Ok chunks ∧
    ∀ i c, chunks !! i = Some c →
           chunk_id c = i ∧ title c = page_title ∧ url c = page_url.
Proof.
  split; [done|].
  destruct (chunk_page_content_ok page_title page_text page_url) as (docs & -> & _).
  eexists. split; [done|]. intros i c Hi.
  by apply list_lookup_imap_Some in Hi as (doc & Hdoc & ->).
Qed.
(** ** The crawl loop *)

Section CrawlFacts.

Context {W : Type}.
Variable fetch_page : string → W → option string * W.
Variable parse_html : string → Bs4.node.
Variable urljoin : string → string → result string.
Variable set_iter : list string → list string.
Variable bracketed_netloc_ok : string → bool.
Variable nfkc_netloc_ok : string → bool.

Local Abbreviation body :=
  (loop_body fetch_page parse_html urljoin set_iter bracketed_netloc_ok nfkc_netloc_ok).

Lemma fetched_app (tr tr' : list event) : fetched (tr ++ tr') = fetched tr ++ fetched tr'.
Proof. apply omap_app. Qed.

Lemma successful_fetches_app (tr tr' : list event) :
  successful_fetches (tr ++ tr') = (successful_fetches tr + successful_fetches tr')%nat.
Proof. unfold successful_fetches. by rewrite List.filter_app, length_app. Qed.

(** What one iteration does, case by case: the dequeued URL was visited
    (skip); the fetch gave nothing; the fetch gave a page, and then either an
    exception left the loop or the links were enqueued and the loop slept. *)
Lemma loop_body_cases (st st' : @state W) (e : option exn) (current_url : string)
  (urls : list string) :
  urls_to_visit st = current_url :: urls →
  body st = (st', e) →
  ((current_url ∈ visited_urls st) ∧ e = None ∧
   st' = mkState (all_chunked_data st) urls (visited_urls st)
                 (pages_scraped_count st) (world st) (trace st)) ∨
  ((current_url ∉ visited_urls st) ∧
   ∃ html_content,
     html_content = (fetch_page current_url (world st)).1 ∧
     world st' = (fetch_page current_url (world st)).2 ∧
     visited_urls st' = {[current_url]} ∪ visited_urls st ∧
     ((truthy html_content = false ∧ e = None ∧
       urls_to_visit st' = urls ∧
       pages_scraped_count st' = pages_scraped_count st ∧
       all_chunked_data st' = all_chunked_data st ∧
       trace st' = trace st ++ [EvFetch current_url html_content]) ∨
      (truthy html_content = true ∧ is_Some e ∧
       urls_to_visit st' = urls ∧
       pages_scraped_count st' = S (pages_scraped_count st) ∧
       trace st' = trace st ++ [EvFetch current_url html_content]) ∨
      (truthy html_content = true ∧ e = None ∧
       (∃ new_links, urls_to_visit st' = enqueue (visited_urls st') urls new_links) ∧
       pages_scraped_count st' = S (pages_scraped_count st) ∧
       trace st' = trace st ++ [EvFetch current_url html_content; EvSleep REQUEST_DELAY]))).
Proof.
  intros Hq. unfold loop_body. rewrite Hq.
  case_bool_decide as Hv.
  { intros [= <- <-]. by left. }
  destruct (fetch_page current_url (world st)) as [html_content w] eqn:Hf.
  intros Hb. right. split; [done|]. exists html_content. simpl.
  destruct html_content as [html|]; [destruct (truthy (Some html)) eqn:Ht|].
  - destruct (page_chunks _ _ _) as [chunks|ex].
    + destruct (extract_links _ _ _ _ _ _ _) as [new_links|ex].
      * injection Hb as <- <-. simpl. split_and!; try done.
        right. right. rewrite <- app_assoc. split_and!; try done. by exists new_links.
      * injection Hb as <- <-. simpl. split_and!; try done.
        right. left. split_and!; done.
    + injection Hb as <- <-. simpl. split_and!; try done.
      right. left. split_and!; done.
  - injection Hb as <- <-. simpl. split_and!; try done. left. split_and!; done.
  - injection Hb as <- <-. simpl. split_and!; try done. left. split_and!; done.
Qed.

(** The links [enqueue] appends are new to the queue and to the visited set. *)
Lemma enqueue_spec (visited : gset string) (new_links urls : list string) :
  NoDup urls → (∀ u, u ∈ urls → u ∉ visited) →
  ∃ added,
    enqueue visited urls new_links = urls ++ added ∧
    NoDup (urls ++ added) ∧
    ∀ u, u ∈ added → (u ∉ visited) ∧ (u ∉ urls) ∧ u ∈ new_links.
Proof.
  unfold enqueue. revert urls.
  induction new_links as [|link links IH]; intros urls Hnd Hdis; simpl.
  - exists []. rewrite app_nil_r. split_and!; [done..|]. by intros u ?%elem_of_nil.
  -     destruct (bool_decide (link ∉ visited) && bool_decide (link ∉ urls)) eqn:Hc.
    + apply andb_true_iff in Hc as [Hv%bool_decide_eq_true Hu%bool_decide_eq_true].
      destruct (IH (urls ++ [link])) as (added & Heq & Hnd' & Hadd).
      * apply NoDup_app. split_and!; [done| |apply NoDup_singleton].
        intros u Hin ->%list_elem_of_singleton. done.
      * intros u [Hin| ->%list_elem_of_singleton]%elem_of_app; [by apply Hdis|done].
      * exists (link :: added). rewrite Heq, <- !app_assoc. simpl.
        split_and!; [done| by rewrite <- app_assoc in Hnd' |].
        intros u [->|Hin]%elem_of_cons.
        -- split_and!; [done..|]. apply list_elem_of_here.
        -- destruct (Hadd u Hin) as (Hv' & Hu' & Hl). split_and!; [done| |].
           ++ intros Hin'. apply Hu', elem_of_app. by left.
           ++ by apply list_elem_of_further.
    + destruct (IH urls Hnd Hdis) as (added & Heq & Hnd' & Hadd).
      exists added. split_and!; [done..|]. intros u Hin.
      destruct (Hadd u Hin) as (? & ? & ?). split_and!; [done..|].
      by apply list_elem_of_further.
Qed.

Lemma frontier_head_fresh (st : @state W) (current_url : string) (urls : list string) :
  frontier_ok st → urls_to_visit st = current_url :: urls →
  (current_url ∉ visited_urls st) ∧ (current_url ∉ urls) ∧ NoDup urls ∧
  ∀ u, u ∈ urls → u ∉ visited_urls st.
Proof.
  intros [Hnd Hdis] Hq. rewrite Hq in Hnd, Hdis.
  apply NoDup_cons in Hnd as [Hhd Hnd]. split_and!; [|done..|].
  - apply Hdis, list_elem_of_here.
  - intros u Hu. by apply Hdis, list_elem_of_further.
Qed.

(** What an iteration appends to the queue, whether it ends normally or
    in an exception. *)
Lemma loop_body_queue (st st' : @state W) (e : option exn) (current_url : string)
  (urls : list string) :
  frontier_ok st → urls_to_visit st = current_url :: urls → body st = (st', e) →
  ∃ added,
    urls_to_visit st' = urls ++ added ∧ NoDup (urls ++ added) ∧
    ∀ u, u ∈ added → (u ∉ visited_urls st') ∧ u ∉ urls_to_visit st.
Proof.
  intros Hfr Hq Hb.
  destruct (frontier_head_fresh st current_url urls Hfr Hq) as (Hcur & Hcu & Hnd & Hdis).
  assert (Hnil : ∃ added : list string,
             urls = urls ++ added ∧ NoDup (urls ++ added) ∧
             ∀ u, u ∈ added → (u ∉ visited_urls st') ∧ u ∉ urls_to_visit st).
  { exists []. rewrite app_nil_r. split_and!; [done..|]. by intros u ?%elem_of_nil. }
  destruct (loop_body_cases st st' e current_url urls Hq Hb)
    as [(_ & _ & ->)|(_ & html & _ & _ & Hv & [Hc|[Hc|Hc]])].
  - done.
  - destruct Hc as (_ & _ & -> & _). done.
  - destruct Hc as (_ & _ & -> & _). done.
  - destruct Hc as (_ & _ & [new_links ->] & _).
    destruct (enqueue_spec (visited_urls st') new_links urls Hnd) as (added & -> & Hnd' & Hadd).
    { intros u Hu. rewrite Hv. intros [->%elem_of_singleton|Hin]%elem_of_union; [done|].
      by apply (Hdis u). }
    exists added. split_and!; [done..|]. intros u Hu.
    destruct (Hadd u Hu) as (Hn1 & Hn2 & _). split; [done|].
    rewrite Hq. intros [->|Hin]%elem_of_cons; [|done].
    apply Hn1. rewrite Hv. apply elem_of_union. left. by apply elem_of_singleton.
Qed.

Lemma loop_body_frontier (st st' : @state W) (e : option exn) :
  urls_to_visit st ≠ [] → body st = (st', e) → frontier_ok st → frontier_ok st'.
Proof.
  intros Hne Hb Hfr. destruct (urls_to_visit st) as [|current_url urls] eqn:Hq; [done|].
  destruct (frontier_head_fresh st current_url urls Hfr Hq) as (Hcur & Hcu & Hnd & Hdis).
  destruct (loop_body_queue st st' e current_url urls Hfr Hq Hb) as (added & Hq' & Hnd' & Hadd).
  split; [by rewrite Hq'|]. rewrite Hq'.
  intros u [Hu|Hu]%elem_of_app; [|by apply Hadd].
  destruct (loop_body_cases st st' e current_url urls Hq Hb)
    as [(? & _ & _)|(_ & html & _ & _ & -> & _)]; [done|].
  intros [->%elem_of_singleton|Hin]%elem_of_union; [done|]. by apply (Hdis u).
Qed.

Lemma successful_fetches_one (url : string) (html_content : option string) :
  successful_fetches [EvFetch url html_content] = if truthy html_content then 1%nat else 0%nat.
Proof. unfold successful_fetches. simpl. by destruct (truthy html_content). Qed.

Lemma loop_body_log (st st' : @state W) (e : option exn) :
  urls_to_visit st ≠ [] → body st = (st', e) → frontier_ok st → log_ok st → log_ok st'.
Proof.
  intros Hne Hb Hfr (Hnd & Hsub & Hcount).
  destruct (urls_to_visit st) as [|current_url urls] eqn:Hq; [done|].
  destruct (frontier_head_fresh st current_url urls Hfr Hq) as (Hcur & _).
  destruct (loop_body_cases st st' e current_url urls Hq Hb)
    as [(? & _ & _)|(_ & html & _ & _ & Hv & Hc)]; [done|].
  assert (Hlog : ∃ tl, trace st' = trace st ++ EvFetch current_url html :: tl ∧
                       fetched tl = [] ∧ successful_fetches tl = 0%nat ∧
                       pages_scraped_count st' =
                         (pages_scraped_count st + if truthy html then 1 else 0)%nat).
  { destruct Hc as [Hc|[Hc|Hc]].
    - destruct Hc as (-> & _ & _ & -> & _ & ->). exists []. split_and!; [done..|lia].
    - destruct Hc as (-> & _ & _ & -> & ->). exists []. split_and!; [done..|lia].
    - destruct Hc as (-> & _ & _ & -> & ->). exists [EvSleep REQUEST_DELAY].
      split_and!; [done..|lia]. }
  destruct Hlog as (tl & Htr & Hf & Hs & Hn). unfold log_ok.
  rewrite Htr, Hn, fetched_app, successful_fetches_app. simpl. rewrite Hf.
  change (EvFetch current_url html :: tl) with ([EvFetch current_url html] ++ tl).
  rewrite successful_fetches_app, successful_fetches_one, Hs, Hv.
  split_and!; [| |lia].
  - apply NoDup_app. split_and!; [done| |apply NoDup_singleton].
    intros u Hu ->%list_elem_of_singleton. by apply Hcur, Hsub.
  - intros u [Hu| ->%list_elem_of_singleton]%elem_of_app; apply elem_of_union.
    + right. by apply Hsub.
    + left. by apply elem_of_singleton.
Qed.

Section RunFacts.

Variable seed : string.
Variable budget : nat.

Local Abbreviation cond := (loop_cond budget).
Local Abbreviation reach :=
  (reachable fetch_page parse_html urljoin set_iter bracketed_netloc_ok nfkc_netloc_ok
             seed budget).
Local Abbreviation run :=
  (main_loop fetch_page parse_html urljoin set_iter bracketed_netloc_ok nfkc_netloc_ok
             budget).

Lemma loop_cond_true (st : @state W) :
  cond st = true ↔ urls_to_visit st ≠ [] ∧ (pages_scraped_count st < budget)%nat.
Proof.
  unfold loop_cond. rewrite andb_true_iff, Nat.ltb_lt.
  destruct (urls_to_visit st); simpl; intuition congruence.
Qed.

Lemma loop_cond_false (st : @state W) :
  cond st = false ↔ urls_to_visit st = [] ∨ (budget ≤ pages_scraped_count st)%nat.
Proof.
  unfold loop_cond. rewrite andb_false_iff, Nat.ltb_ge.
  destruct (urls_to_visit st); simpl; intuition congruence.
Qed.

Lemma initial_ok (w : W) : frontier_ok (initial seed w) ∧ log_ok (initial seed w).
Proof.
  unfold frontier_ok, log_ok. simpl. split_and!.
  - apply NoDup_singleton.
  - intros u _. apply not_elem_of_empty.
  - apply NoDup_nil_2.
  - by intros u ?%elem_of_nil.
  - done.
Qed.

Lemma reachable_ok (w : W) (st : @state W) : reach w st → frontier_ok st ∧ log_ok st.
Proof.
  induction 1 as [|st st' _ [Hfr Hlog] [Hc Hb]]; [apply initial_ok|].
  apply loop_cond_true in Hc as [Hne _]. split.
  - by eapply loop_body_frontier.
  - by eapply loop_body_log.
Qed.

Lemma loop_body_visited_mono (st st' : @state W) (e : option exn) (u : string) :
  urls_to_visit st ≠ [] → body st = (st', e) →
  u ∈ visited_urls st → u ∈ visited_urls st'.
Proof.
  intros Hne Hb Hu. destruct (urls_to_visit st) as [|current_url urls] eqn:Hq; [done|].
  destruct (loop_body_cases st st' e current_url urls Hq Hb)
    as [(_ & _ & ->)|(_ & html & _ & _ & -> & _)]; [done|].
  apply elem_of_union. by right.
Qed.

(** An iteration either counts one more page, or leaves the counter and
    shortens the queue. *)
Lemma loop_body_progress (st st' : @state W) (e : option exn) :
  urls_to_visit st ≠ [] → body st = (st', e) →
  pages_scraped_count st' = S (pages_scraped_count st) ∨
  (pages_scraped_count st' = pages_scraped_count st ∧
   (length (urls_to_visit st') < length (urls_to_visit st))%nat).
Proof.
  intros Hne Hb. destruct (urls_to_visit st) as [|current_url urls] eqn:Hq; [done|].
  destruct (loop_body_cases st st' e current_url urls Hq Hb)
    as [(_ & _ & ->)|(_ & html & _ & _ & _ & [Hc|[Hc|Hc]])].
  - right. simpl. lia.
  - destruct Hc as (_ & _ & -> & -> & _). right. simpl. lia.
  - destruct Hc as (_ & _ & _ & -> & _). by left.
  - destruct Hc as (_ & _ & _ & -> & _). by left.
Qed.

Lemma main_loop_unfold (fuel : nat) (st : @state W) :
  cond st = true →
  run (S fuel) st =
  match body st with
  | (st', None) => run fuel st'
  | (st', Some e) => Some (Uncaught e st')
  end.
Proof. intros Hc. simpl. by rewrite Hc. Qed.

Lemma main_loop_exit (fuel : nat) (st : @state W) :
  cond st = false → run fuel st = Some (Finished st).
Proof. intros Hc. destruct fuel; simpl; by rewrite Hc. Qed.

(** From every state that satisfies the invariants the loop ends, by its
    condition or by an exception, within the budget. *)
Lemma main_loop_terminates (st : @state W) :
  frontier_ok st → log_ok st → (pages_scraped_count st ≤ budget)%nat →
  ∃ fuel o,
    run fuel st = Some o ∧
    (pages_scraped_count (final_state o) ≤ budget)%nat ∧
    log_ok (final_state o) ∧
    (∀ st', o = Finished st' → cond st' = false).
Proof.
  remember (budget - pages_scraped_count st)%nat as k eqn:Hk.
  revert st Hk. induction k as [k IHk] using lt_wf_ind. intros st Hk.
  remember (length (urls_to_visit st)) as q eqn:Hq.
  revert st Hk Hq. induction q as [q IHq] using lt_wf_ind. intros st Hk Hq Hfr Hlog Hle.
  destruct (cond st) eqn:Hc.
  - destruct (body st) as [st' e] eqn:Hb.
    pose proof Hc as [Hne Hlt]%loop_cond_true.
    pose proof (loop_body_frontier st st' e Hne Hb Hfr) as Hfr'.
    pose proof (loop_body_log st st' e Hne Hb Hfr Hlog) as Hlog'.
    pose proof (loop_body_progress st st' e Hne Hb) as Hprog.
    destruct e as [ex|].
    + exists 1%nat, (Uncaught ex st'). rewrite main_loop_unfold, Hb by done.
      split_and!; [done| |done|done]. simpl. lia.
    + assert (∃ fuel o, run fuel st' = Some o ∧
                (pages_scraped_count (final_state o) ≤ budget)%nat ∧
                log_ok (final_state o) ∧
                (∀ st'', o = Finished st'' → cond st'' = false))
        as (fuel & o & Hrun & Hres).
      { destruct Hprog as [Hn|[Hn Hlen]].
        - apply (IHk (budget - pages_scraped_count st')%nat); [lia|done..|lia].
        - apply (IHq (length (urls_to_visit st'))); [lia|lia|done..|lia]. }
      exists (S fuel), o. by rewrite main_loop_unfold, Hb.
  - exists 0%nat, (Finished st). rewrite main_loop_exit by done.
    split_and!; [done..|]. by intros st' [= <-].
Qed.

(** C10. In every state the loop head is reached in, the queue holds no URL
    twice and no visited URL; so the test [current_url in visited_urls] on
    the dequeued URL is false and the skip branch is not taken. *)
Theorem queue_duplicate_free_and_unvisited (w : W) (st : @state W) :
  reach w st →
  NoDup (urls_to_visit st) ∧
  (∀ u, u ∈ urls_to_visit st → u ∉ visited_urls st) ∧
  (∀ current_url urls,
     urls_to_visit st = current_url :: urls →
     bool_decide (current_url ∈ visited_urls st) = false).
Proof.
  intros [[Hnd Hdis] _]%reachable_ok. split_and!; [done..|].
  intros current_url urls Hq. apply bool_decide_eq_false, Hdis.
  rewrite Hq. apply list_elem_of_here.
Qed.

(** C1. In every state the loop head is reached in, [fetch_page] has been
    called at most once per URL and the visited set lists each URL once; and
    the iteration that starts there (whether it ends normally or in an
    exception) again fetches no URL a second time and appends to the queue
    only URLs that are neither visited nor queued, each once. *)
Theorem no_url_fetched_twice (w : W) (st : @state W) :
  reach w st →
  NoDup (fetched (trace st)) ∧
  NoDup (elements (visited_urls st)) ∧
  ∀ st' e,
    cond st = true → body st = (st', e) →
    NoDup (fetched (trace st')) ∧
    ∃ added,
      urls_to_visit st' = tail (urls_to_visit st) ++ added ∧
      NoDup added ∧
      ∀ u, u ∈ added →
           (u ∉ visited_urls st') ∧ (u ∉ visited_urls st) ∧ u ∉ urls_to_visit st.
Proof.
  intros [Hfr Hlog]%reachable_ok. split_and!; [apply Hlog|apply NoDup_elements|].
  intros st' e [Hne _]%loop_cond_true Hb.
  destruct (loop_body_log st st' e Hne Hb Hfr Hlog) as (Hnd' & _). split; [done|].
  destruct (urls_to_visit st) as [|current_url urls] eqn:Hq; [done|].
  destruct (loop_body_queue st st' e current_url urls Hfr Hq Hb) as (added & Hq' & Hnd & Hadd).
  exists added. simpl. split_and!; [done|by apply NoDup_app in Hnd as (_ & _ & ?)|].
  intros u Hu. destruct (Hadd u Hu) as [Hv Hqu]. split_and!; [done| |by rewrite <- Hq].
  intros Hin. apply Hv. eapply loop_body_visited_mono; [|done..]. by rewrite Hq.
Qed.

(** X21. For every seed, every environment and every page budget, the crawl
    loop ends after finitely many iterations, by its condition or by an
    exception that leaves it; at that point at most [budget] pages have been
    counted and the counter equals the number of fetches that returned a
    page. The condition is false exactly when the queue is empty or the
    counter has reached the budget, so a run that ends by its condition ends
    with an empty queue or a counter equal to the budget. *)
Theorem crawl_terminates_within_budget (w : W) :
  (∃ fuel o,
     run fuel (initial seed w) = Some o ∧
     (pages_scraped_count (final_state o) ≤ budget)%nat ∧
     pages_scraped_count (final_state o) = successful_fetches (trace (final_state o)) ∧
     (∀ st, o = Finished st →
            urls_to_visit st = [] ∨ pages_scraped_count st = budget)) ∧
  (∀ st : @state W,
     cond st = false ↔ urls_to_visit st = [] ∨ (budget ≤ pages_scraped_count st)%nat) ∧
  (∀ fuel (st : @state W), cond st = false → run fuel st = Some (Finished st)).
Proof.
  split_and!; [|apply loop_cond_false|apply main_loop_exit].
  destruct (initial_ok w) as [Hfr Hlog].
  destruct (main_loop_terminates (initial seed w) Hfr Hlog) as (fuel & o & Hrun & Hle & Hlog' & Hfin).
  { simpl. lia. }
  exists fuel, o. split_and!; [done..|apply Hlog'|].
  intros st ->. simpl in Hle. destruct (proj1 (loop_cond_false st) (Hfin st eq_refl)); [by left|].
  right. lia.
Qed.

End RunFacts.

End CrawlFacts.
(** ** Link discovery *)

Section LinkFacts.

Variable parse_html : string → Bs4.node.
Variable urljoin : string → string → result string.
Variable bracketed_netloc_ok : string → bool.
Variable nfkc_netloc_ok : string → bool.

Local Abbreviation links_in :=
  (λ set_iter, extract_links parse_html urljoin set_iter
                 bracketed_netloc_ok nfkc_netloc_ok).

(** C4 (amended). For a fixed [(html_content, current_url)], every invocation
    of [extract_links] returns the same links: under any two iteration orders
    of the set of links, both invocations raise the same exception, or both
    return a list without duplicates and the two lists are permutations of
    each other. The order of the list is the iteration order of the set,
    which the code does not fix. *)
Theorem extract_links_same_links (set_iter1 set_iter2 : list string → list string)
  (html_content current_url : string) :
  set_order_ok set_iter1 → set_order_ok set_iter2 →
  match links_in set_iter1 html_content current_url,
        links_in set_iter2 html_content current_url with
  | Ok links1, Ok links2 => NoDup links1 ∧ NoDup links2 ∧ links1 ≡ₚ links2
  | Raise e1, Raise e2 => e1 = e2
  | _, _ => False
  end.
Proof.
  intros H1 H2. unfold extract_links.
  destruct (collect_links _ _ _ _ _ _) as [links|e]; cbn [mbind result_bind]; [|done].
  destruct (H1 links) as [Hnd1 Hin1], (H2 links) as [Hnd2 Hin2].
  split_and!; [done..|]. apply NoDup_Permutation; [done..|].
  intros x. by rewrite Hin1, Hin2.
Qed.

End LinkFacts.

Lemma first_seen_ok : set_order_ok Example.first_seen.
Proof.
  intros l. split; [apply NoDup_remove_dups|]. intros x. apply elem_of_remove_dups.
Qed.

Lemma last_seen_ok : set_order_ok Example.last_seen.
Proof.
  intros l. unfold Example.last_seen. split.
  - rewrite reverse_Permutation. apply NoDup_remove_dups.
  - intros x. rewrite elem_of_reverse. apply elem_of_remove_dups.
Qed.

Lemma extract_links_same_links_witness :
  match extract_links Example.parse_html Example.urljoin Example.first_seen
          Example.accept Example.accept "home" BASE_URL,
        extract_links Example.parse_html Example.urljoin Example.last_seen
          Example.accept Example.accept "home" BASE_URL with
  | Ok links1, Ok links2 => NoDup links1 ∧ NoDup links2 ∧ links1 ≡ₚ links2
  | Raise e1, Raise e2 => e1 = e2
  | _, _ => False
  end.
Proof.
  exact (extract_links_same_links Example.parse_html Example.urljoin
           Example.accept Example.accept Example.first_seen Example.last_seen
           "home" BASE_URL first_seen_ok last_seen_ok).
Defined.

(** C4, as stated, fails: on the same page and URL, two admissible iteration
    orders of the set of links give the links in different orders. *)
Lemma extract_links_order_differs :
  set_order_ok Example.first_seen ∧ set_order_ok Example.last_seen ∧
  extract_links Example.parse_html Example.urljoin Example.first_seen
    Example.accept Example.accept "home" BASE_URL
    = Ok [Example.page_a; Example.page_b] ∧
  extract_links Example.parse_html Example.urljoin Example.last_seen
    Example.accept Example.accept "home" BASE_URL
    = Ok [Example.page_b; Example.page_a].
Proof. split_and!; [apply first_seen_ok|apply last_seen_ok|by vm_compute..]. Qed.

(** C3. The code sleeps only after a fetch that returned a page. On a
    network where page [a] cannot be fetched, [a] is fetched and the next
    iteration fetches [b] with no sleep in between. *)
Theorem no_sleep_after_failed_fetch :
  ∃ st,
    Example.main 10 = Some (Finished st) ∧
    trace st = [EvFetch BASE_URL (Some "home"); EvSleep REQUEST_DELAY;
                EvFetch Example.page_a None;
                EvFetch Example.page_b (Some "page b"); EvSleep REQUEST_DELAY].
Proof. eexists. split; [by vm_compute|]. reflexivity. Qed.

(** C2. The loop does not only end when the queue is empty or the counter
    has reached the budget. On a site whose home page links to [a] and [b]
    and whose page [a] has an empty title element, the iteration on [a]
    raises [TypeError] (the exception of [extract_meaningful_content], which
    [main] does not catch): the loop is left with [b] still queued and 2
    pages counted of 50, in a state where its condition holds. *)
Theorem crawl_aborts_on_empty_title :
  ∃ st,
    Crash.main 10 = Some (Uncaught TypeError st) ∧
    urls_to_visit st = [Example.page_b] ∧
    pages_scraped_count st = 2%nat ∧
    loop_cond MAX_PAGES_TO_SCRAPE st = true ∧
    fetched (trace st) = [BASE_URL; Example.page_a].
Proof. eexists. split; [by vm_compute|]. by vm_compute. Qed.
Lemma after_home_reachable :
  reachable Example.fetch_page Example.parse_html Example.urljoin Example.first_seen
            Example.accept Example.accept BASE_URL MAX_PAGES_TO_SCRAPE () after_home.
Proof.
  eapply reach_step; [apply reach_initial|]. split; [reflexivity|]. by vm_compute.
Defined.

Lemma queue_duplicate_free_and_unvisited_witness :
  urls_to_visit after_home = [Example.page_a; Example.page_b] ∧
  NoDup (urls_to_visit after_home) ∧
  (∀ u, u ∈ urls_to_visit after_home → u ∉ visited_urls after_home) ∧
  (∀ current_url urls,
     urls_to_visit after_home = current_url :: urls →
     bool_decide (current_url ∈ visited_urls after_home) = false).
Proof.
  split; [by vm_compute|].
  exact (queue_duplicate_free_and_unvisited _ _ _ _ _ _ _ _ _ _ after_home_reachable).
Defined.

Lemma no_url_fetched_twice_witness :
  fetched (trace after_home) = [BASE_URL] ∧
  NoDup (fetched (trace after_home)) ∧
  NoDup (elements (visited_urls after_home)).
Proof.
  split; [by vm_compute|].
  pose proof (no_url_fetched_twice _ _ _ _ _ _ _ _ _ _ after_home_reachable) as (H1 & H2 & _).
  exact (conj H1 H2).
Defined.

(** ** The content extractor *)

(** The title is the cleaned string of the title element, the placeholder
    when the document has no title element; the call raises only when the
    title element has no single string. *)
Lemma extract_title (soup : Bs4.node) (url : string) :
  match title_string soup with
  | Some s => ∃ body, extract_meaningful_content soup url = Ok (clean_text s, body)
  | None => extract_meaningful_content soup url = Raise TypeError
  end.
Proof.
  unfold extract_meaningful_content.
  destruct (title_string soup); cbn [mbind result_bind]; [|done]. by eexists.
Qed.

(** C8. A document whose title element is empty has no title string
    ([soup.title.string] is [None]); [clean_text] is called on it and the
    extraction raises [TypeError], where the claim promises a title and no
    error. *)
Theorem extract_raises_on_empty_title :
  Bs4.find "title" Pages.empty_title = Some (Bs4.Tag "title" [] []) ∧
  title_string Pages.empty_title = None ∧
  extract_meaningful_content Pages.empty_title BASE_URL = Raise TypeError.
Proof. by vm_compute. Qed.

(** C9. An ingredients container whose only item normalizes to the empty
    text still emits a section, which is the bare prefix; so does a
    nutrition table whose only cell is empty. The claim promises that
    nothing is emitted. *)
Theorem blank_items_emit_bare_prefix :
  ingredients_texts (Bs4.Tag "main" []
    [Bs4.Tag "ul" [("class", "ingredients-list")] [Bs4.Tag "li" [] [Pages.text " "]]])
    = ["Ingredients: "] ∧
  extract_meaningful_content Pages.blank_ingredient BASE_URL
    = Ok ("No Title", "Ingredients: ") ∧
  extract_meaningful_content Pages.blank_nutrition BASE_URL
    = Ok ("No Title", "Nutritional Information: ").
Proof. by vm_compute. Qed.
(** * Further properties of the code *)

(** ** [clean_text] *)

Section CleanText.

Lemma sub_ws_single_spaced (in_run : bool) (s : string) :
  single_spaced in_run (Py.sub_ws in_run s) = true.
Proof.
  revert in_run. induction s as [|a s IH]; intros in_run; [done|]. simpl.
  destruct (Py.is_space a) eqn:Ha.
  - destruct in_run; [apply IH|]. simpl. apply IH.
  - simpl. rewrite Ha. apply IH.
Qed.

Lemma single_spaced_sub_ws (prev : bool) (s : string) :
  single_spaced prev s = true → Py.sub_ws prev s = s.
Proof.
  revert prev. induction s as [|a s IH]; intros prev; [done|]. simpl.
  destruct (Py.is_space a).
  - intros [[Ha Hp%negb_true_iff]%andb_true_iff Hs]%andb_true_iff. subst prev.
    apply Ascii.eqb_eq in Ha as ->. by rewrite IH.
  - intros Hs. by rewrite IH.
Qed.

Lemma single_spaced_lstrip (prev prev' : bool) (s : string) :
  single_spaced prev s = true →
  single_spaced prev' (Py.lstrip_by Py.is_space s) = true.
Proof.
  revert prev. induction s as [|a s IH]; intros prev; [done|]. simpl.
  destruct (Py.is_space a) eqn:Ha.
  - intros [_ Hs]%andb_true_iff. by eapply IH.
  - simpl. by rewrite Ha.
Qed.

Lemma rstrip_by_unfold (p : ascii → bool) (a : ascii) (s : string) :
  Py.rstrip_by p (String a s) =
  match Py.rstrip_by p s with
  | EmptyString => if p a then EmptyString else String a EmptyString
  | r => String a r
  end.
Proof. reflexivity. Qed.

Lemma single_spaced_rstrip (prev : bool) (s : string) :
  single_spaced prev s = true →
  single_spaced prev (Py.rstrip_by Py.is_space s) = true.
Proof.
  revert prev. induction s as [|a s IH]; intros prev; [done|].
  rewrite rstrip_by_unfold. simpl.
  destruct (Py.is_space a) eqn:Ha.
  - intros [Hap Hs]%andb_true_iff. apply IH in Hs.
    destruct (Py.rstrip_by Py.is_space s) as [|b r]; [done|].
    cbn [single_spaced]. rewrite Ha, Hap. exact Hs.
  - intros Hs. apply IH in Hs.
    destruct (Py.rstrip_by Py.is_space s) as [|b r]; cbn [single_spaced]; by rewrite Ha.
Qed.

Lemma clean_text_single_spaced (text : string) :
  single_spaced false (clean_text text) = true.
Proof.
  unfold clean_text, Py.strip.
  apply single_spaced_rstrip, (single_spaced_lstrip false), sub_ws_single_spaced.
Qed.

Lemma lstrip_by_starts_clean (p : ascii → bool) (s : string) :
  starts_clean p (Py.lstrip_by p s) = true.
Proof.
  induction s as [|a s IH]; [done|]. simpl. destruct (p a) eqn:Ha; [done|].
  simpl. by rewrite Ha.
Qed.

Lemma starts_clean_lstrip (p : ascii → bool) (s : string) :
  starts_clean p s = true → Py.lstrip_by p s = s.
Proof. destruct s as [|a s]; [done|]. simpl. by intros ->%negb_true_iff. Qed.

Lemma rstrip_by_starts_clean (p : ascii → bool) (s : string) :
  starts_clean p s = true → starts_clean p (Py.rstrip_by p s) = true.
Proof.
  destruct s as [|a s]; [done|]. rewrite rstrip_by_unfold. simpl.
  intros Ha%negb_true_iff. rewrite Ha.
  destruct (Py.rstrip_by p s); simpl; by rewrite Ha.
Qed.

Lemma rstrip_by_idemp (p : ascii → bool) (s : string) :
  Py.rstrip_by p (Py.rstrip_by p s) = Py.rstrip_by p s.
Proof.
  induction s as [|a s IH]; [done|]. rewrite rstrip_by_unfold.
  destruct (Py.rstrip_by p s) as [|b r] eqn:Hr.
  - destruct (p a) eqn:Ha; [done|]. simpl. by rewrite Ha.
  - rewrite rstrip_by_unfold, IH. done.
Qed.

Lemma strip_idemp (s : string) : Py.strip (Py.strip s) = Py.strip s.
Proof.
  unfold Py.strip.
  rewrite (starts_clean_lstrip Py.is_space (Py.rstrip_by _ _)).
  - apply rstrip_by_idemp.
  - apply rstrip_by_starts_clean, lstrip_by_starts_clean.
Qed.

(** [rstrip_by p s] does not end in a character that satisfies [p]. *)
Lemma rstrip_by_ends_clean (p : ascii → bool) (s l : string) (a : ascii) :
  Py.rstrip_by p s = l +:+ String a "" → p a = false.
Proof.
  revert l. induction s as [|b s IH]; intros l.
  - simpl. destruct l; discriminate.
  - rewrite rstrip_by_unfold. destruct (Py.rstrip_by p s) as [|c r] eqn:Hr.
    + destruct (p b) eqn:Hb; [destruct l; discriminate|].
      destruct l as [|d l]; [by intros [= <-]|].
      rewrite app_String. intros [= _ H]. destruct l; discriminate.
    + destruct l as [|d l]; [discriminate|]. rewrite app_String.
      intros [= _ H]. by eapply IH.
Qed.

End CleanText.

(** X1. [clean_text] is idempotent: cleaning a cleaned text changes nothing. *)
Theorem clean_text_idempotent (text : string) :
  clean_text (clean_text text) = clean_text text.
Proof.
  unfold clean_text at 1.
  rewrite (single_spaced_sub_ws false) by apply clean_text_single_spaced.
  unfold clean_text. apply strip_idemp.
Qed.

(** X2. The normal form of [clean_text]: the result neither starts nor ends
    with whitespace, its only whitespace character is the space, and a space
    is never followed by whitespace. *)
Theorem clean_text_normal_form (text : string) :
  (∀ a r, clean_text text = String a r → Py.is_space a = false) ∧
  (∀ l a, clean_text text = l +:+ String a "" → Py.is_space a = false) ∧
  (∀ l a r, clean_text text = l +:+ String a r → Py.is_space a = true → a = " "%char) ∧
  (∀ l a b r, clean_text text = l +:+ String a (String b r) →
              Py.is_space a = true → Py.is_space b = false).
Proof.
  assert (Hmid : ∀ prev s l a r, single_spaced prev s = true → s = l +:+ String a r →
                   Py.is_space a = true →
                   a = " "%char ∧ single_spaced true r = true).
  { intros prev s. revert prev. induction s as [|c s IH]; intros prev l a r Hs Heq Ha.
    - destruct l; discriminate.
    - destruct l as [|d l].
      + rewrite app_empty_l in Heq. injection Heq as -> ->. simpl in Hs. rewrite Ha in Hs.
        apply andb_true_iff in Hs as [[He _]%andb_true_iff Hs].
        by apply Ascii.eqb_eq in He.
      + rewrite app_String in Heq. injection Heq as -> ->. simpl in Hs.
        destruct (Py.is_space d); [apply andb_true_iff in Hs as [_ Hs]|]; by eapply IH. }
  pose proof (clean_text_single_spaced text) as Hss.
  split_and!.
  - intros a r Heq. unfold clean_text, Py.strip in Heq.
    pose proof (rstrip_by_starts_clean Py.is_space _
                  (lstrip_by_starts_clean Py.is_space (Py.sub_ws false text))) as Hc.
    rewrite Heq in Hc. by apply negb_true_iff in Hc.
  - intros l a Heq. unfold clean_text, Py.strip in Heq. by eapply rstrip_by_ends_clean.
  - intros l a r Heq Ha. by destruct (Hmid _ _ _ _ _ Hss Heq Ha).
  - intros l a b r Heq Ha. destruct (Hmid _ _ _ _ _ Hss Heq Ha) as [_ Hr].
    simpl in Hr. destruct (Py.is_space b); [|done]. by rewrite andb_false_r in Hr.
Qed.
Section Blank.

Lemma forallb_sub_ws (in_run : bool) (s : string) :
  Py.forallb_str Py.is_space (Py.sub_ws in_run s) = Py.forallb_str Py.is_space s.
Proof.
  revert in_run. induction s as [|a s IH]; intros in_run; [done|]. simpl.
  destruct (Py.is_space a) eqn:Ha.
  - destruct in_run; simpl; by rewrite IH.
  - simpl. by rewrite Ha.
Qed.

Lemma forallb_lstrip_by (p : ascii → bool) (s : string) :
  Py.forallb_str p (Py.lstrip_by p s) = Py.forallb_str p s.
Proof.
  induction s as [|a s IH]; [done|]. simpl. destruct (p a) eqn:Ha; [done|].
  simpl. by rewrite Ha.
Qed.

Lemma rstrip_by_empty_iff (p : ascii → bool) (s : string) :
  Py.rstrip_by p s = "" ↔ Py.forallb_str p s = true.
Proof.
  induction s as [|a s IH]; [done|]. rewrite rstrip_by_unfold. simpl.
  destruct (Py.rstrip_by p s) as [|b r].
  - destruct (p a); simpl; [tauto|]. split; [discriminate|done].
  - split; [discriminate|]. intros [_ Hs]%andb_true_iff. apply IH in Hs. discriminate.
Qed.

Lemma strip_empty_iff (s : string) :
  Py.strip s = "" ↔ Py.forallb_str Py.is_space s = true.
Proof. unfold Py.strip. by rewrite rstrip_by_empty_iff, forallb_lstrip_by. Qed.

End Blank.

(** X3. [clean_text] returns the empty string exactly on the texts that consist
    of whitespace only (the empty text among them). *)
Theorem clean_text_empty_iff (text : string) :
  clean_text text = "" ↔ Py.forallb_str Py.is_space text = true.
Proof. unfold clean_text. by rewrite strip_empty_iff, forallb_sub_ws. Qed.
(** ** The scope filter, continued *)

(** X4. What [is_valid_url] accepts is in scope: an http or https URL on the
    host of the seed, whose path ends in none of the binary extensions and
    whose query string is empty. *)
Theorem is_valid_url_accepts_in_scope
  (bracketed_netloc_ok nfkc_netloc_ok : string → bool) (url : string) :
  is_valid_url bracketed_netloc_ok nfkc_netloc_ok url = Ok true →
  ∃ p, urlparse bracketed_netloc_ok nfkc_netloc_ok url = Ok p ∧
       Urllib.scheme p ∈ ["http"; "https"] ∧
       Urllib.netloc p = "www.madewithnestle.ca" ∧
       Py.endswith_any binary_extensions (Urllib.path p) = false ∧
       Urllib.query p = "".
Proof.
  intros Hv.
  destruct (urlparse bracketed_netloc_ok nfkc_netloc_ok url) as [p|e] eqn:Hp.
  - destruct (is_valid_url_true_iff _ _ url p Hp) as (b & Hb & Hiff).
    rewrite Hv in Hb. injection Hb as <-.
    destruct (proj1 Hiff eq_refl) as (Hs & Hn & He & Hq & _).
    exists p. split_and!; [done..| |done].
    apply not_true_is_false. by intros ?%endswith_any_spec.
  - unfold is_valid_url in Hv. rewrite urlparse_BASE_URL, Hp in Hv. discriminate.
Qed.

Lemma is_valid_url_accepts_in_scope_witness :
  ∃ p, urlparse Example.accept Example.accept Example.page_a = Ok p ∧
       Urllib.scheme p ∈ ["http"; "https"] ∧
       Urllib.netloc p = "www.madewithnestle.ca" ∧
       Py.endswith_any binary_extensions (Urllib.path p) = false ∧
       Urllib.query p = "".
Proof.
  apply (is_valid_url_accepts_in_scope Example.accept Example.accept Example.page_a).
  by vm_compute.
Defined.

(** X5. [is_valid_url] raises exactly when [urlparse] raises on the candidate
    URL, with the same exception; parsing [BASE_URL] never makes it raise. *)
Theorem is_valid_url_raises_iff
  (bracketed_netloc_ok nfkc_netloc_ok : string → bool) (url : string) (e : exn) :
  is_valid_url bracketed_netloc_ok nfkc_netloc_ok url = Raise e ↔
  urlparse bracketed_netloc_ok nfkc_netloc_ok url = Raise e.
Proof.
  unfold is_valid_url. rewrite urlparse_BASE_URL. cbn [mbind result_bind].
  destruct (urlparse bracketed_netloc_ok nfkc_netloc_ok url); cbn [mbind result_bind];
    split; congruence.
Qed.

(** ** Link discovery, continued *)

Section LinkDiscovery.

Variable parse_html : string → Bs4.node.
Variable urljoin : string → string → result string.
Variable set_iter : list string → list string.
Variable bracketed_netloc_ok : string → bool.
Variable nfkc_netloc_ok : string → bool.

Local Abbreviation valid := (is_valid_url bracketed_netloc_ok nfkc_netloc_ok).
Local Abbreviation collect :=
  (collect_links urljoin bracketed_netloc_ok nfkc_netloc_ok).
Local Abbreviation links_of :=
  (extract_links parse_html urljoin set_iter bracketed_netloc_ok nfkc_netloc_ok).

Lemma collect_links_ok (current_url : string) (hrefs links out : list string) :
  collect current_url hrefs links = Ok out →
  ∀ link, link ∈ out ↔
          link ∈ links ∨ ∃ href, href ∈ hrefs ∧ link_of urljoin bracketed_netloc_ok nfkc_netloc_ok current_url href link.
Proof.
  revert links. induction hrefs as [|href hrefs IH]; intros links Hc link.
  - injection Hc as <-. split; [by left|]. intros [?|(? & []%elem_of_nil & _)]. done.
  - cbn [collect_links] in Hc.
    destruct (urljoin current_url href) as [abs|] eqn:Hj; [|discriminate].
    cbn [mbind result_bind] in Hc.
    destruct (valid abs) as [[]|] eqn:Hv; [| |discriminate]; cbn [mbind result_bind] in Hc;
      rewrite (IH _ Hc link).
    + rewrite elem_of_app, list_elem_of_singleton. split.
      * intros [[Hl| ->]|(h & Hh & Hlink)].
        -- by left.
        -- right. exists href. split; [apply list_elem_of_here|]. by exists abs.
        -- right. exists h. split; [by apply list_elem_of_further|done].
      * intros [Hl|(h & [->|Hh]%elem_of_cons & Hlink)].
        -- left. by left.
        -- left. right. destruct Hlink as (abs' & Hj' & _ & ->). congruence.
        -- right. by exists h.
    + split.
      * intros [Hl|(h & Hh & Hlink)]; [by left|].
        right. exists h. split; [by apply list_elem_of_further|done].
      * intros [Hl|(h & [->|Hh]%elem_of_cons & Hlink)]; [by left| |right; by exists h].
        destruct Hlink as (abs' & Hj' & Hv' & _). congruence.
Qed.

Lemma collect_links_raise (current_url : string) (hrefs links : list string) :
  (∃ e, collect current_url hrefs links = Raise e) ↔
  ∃ href e, href ∈ hrefs ∧ href_raises urljoin bracketed_netloc_ok nfkc_netloc_ok current_url href e.
Proof.
  revert links. induction hrefs as [|href hrefs IH]; intros links.
  - split; [by intros [e ?]|]. by intros (? & ? & []%elem_of_nil & _).
  - cbn [collect_links].
    destruct (urljoin current_url href) as [abs|e0] eqn:Hj; cbn [mbind result_bind].
    + destruct (valid abs) as [b|e0] eqn:Hv; cbn [mbind result_bind].
      * rewrite IH. split.
        -- intros (h & e & Hh & Hr). exists h, e. split; [by apply list_elem_of_further|done].
        -- intros (h & e & [->|Hh]%elem_of_cons & Hr); [|by exists h, e].
           destruct Hr as [Hr|(abs' & Hj' & Hv')]; congruence.
      * split; [|by exists e0]. intros _. exists href, e0.
        split; [apply list_elem_of_here|]. right. by exists abs.
    + split; [|by exists e0]. intros _. exists href, e0.
      split; [apply list_elem_of_here|]. by left.
Qed.

Lemma before_first_no_char (c : ascii) (s : string) :
  Py.has_char c (Py.before_first c s) = false.
Proof.
  unfold Py.before_first.
  destruct (Py.split_once c s) as [[l r]|] eqn:Hs.
  - revert l r Hs. induction s as [|a s IH]; intros l r Hs; [discriminate|].
    simpl in Hs. destruct (Ascii.eqb a c) eqn:Ha.
    + by injection Hs as <- <-.
    + destruct (Py.split_once c s) as [[l' r']|]; [|discriminate].
      injection Hs as <- <-. simpl. rewrite Ha. by eapply IH.
  - induction s as [|a s IH]; [done|]. simpl in *.
    destruct (Ascii.eqb a c); [discriminate|].
    destruct (Py.split_once c s) as [[l' r']|]; [discriminate|]. by apply IH.
Qed.

(** The links [extract_links] returns, as a set. *)
Lemma extract_links_links (html_content current_url : string) (links : list string) :
  set_order_ok set_iter →
  links_of html_content current_url = Ok links →
  NoDup links ∧
  ∀ link, link ∈ links ↔
          ∃ href, href ∈ anchor_hrefs (parse_html html_content) ∧
                  link_of urljoin bracketed_netloc_ok nfkc_netloc_ok current_url href link.
Proof.
  intros Hset. unfold extract_links.
  destruct (collect _ _ _) as [added|] eqn:Hc; cbn [mbind result_bind]; [|discriminate].
  intros [= <-]. destruct (Hset added) as [Hnd Hin]. split; [done|].
  intros link. rewrite Hin, (collect_links_ok _ _ _ _ Hc link).
  split; [|by right]. intros [[]%elem_of_nil|H]. done.
Qed.

(** X6. When [extract_links] returns, it returns without duplicates exactly
    the links of the page: the URLs [urljoin] resolves the anchors' [href]
    to and [is_valid_url] accepts, cut before their first [#]. *)
Theorem extract_links_exact (html_content current_url : string) (links : list string) :
  set_order_ok set_iter →
  links_of html_content current_url = Ok links →
  NoDup links ∧
  ∀ link, link ∈ links ↔
          ∃ href, href ∈ anchor_hrefs (parse_html html_content) ∧
                  link_of urljoin bracketed_netloc_ok nfkc_netloc_ok current_url href link.
Proof. apply extract_links_links. Qed.

(** X7. No link that [extract_links] returns contains a [#]: the fragment
    identifiers are removed. *)
Theorem extract_links_no_fragment (html_content current_url : string)
  (links : list string) :
  set_order_ok set_iter →
  links_of html_content current_url = Ok links →
  ∀ link, link ∈ links → Py.has_char "#" link = false.
Proof.
  intros Hset Hl link Hin.
  apply (extract_links_links _ _ _ Hset Hl) in Hin as (href & _ & abs & _ & _ & ->).
  apply before_first_no_char.
Qed.

(** X8. [extract_links] raises exactly when some anchor of the page has an
    [href] on which [urljoin] raises, or which [urljoin] resolves to a URL on
    which [is_valid_url] raises: one such anchor loses all links of the page. *)
Theorem extract_links_raises_iff (html_content current_url : string) :
  (∃ e, links_of html_content current_url = Raise e) ↔
  ∃ href e, href ∈ anchor_hrefs (parse_html html_content) ∧
            href_raises urljoin bracketed_netloc_ok nfkc_netloc_ok current_url href e.
Proof.
  rewrite <- (collect_links_raise current_url _ []). unfold extract_links.
  destruct (collect _ _ _) as [l|e0]; cbn [mbind result_bind];
    split; intros [e He]; by eauto.
Qed.

End LinkDiscovery.
Lemma extract_links_exact_witness :
  NoDup [Example.page_a; Example.page_b] ∧
  ∀ link, link ∈ [Example.page_a; Example.page_b] ↔
          ∃ href, href ∈ anchor_hrefs (Example.parse_html "home") ∧
                  link_of Example.urljoin Example.accept Example.accept
                          BASE_URL href link.
Proof.
  apply (extract_links_exact Example.parse_html Example.urljoin Example.first_seen
           Example.accept Example.accept "home" BASE_URL).
  - apply first_seen_ok.
  - by vm_compute.
Defined.

Lemma extract_links_no_fragment_witness : Py.has_char "#" Example.page_b = false.
Proof.
  apply (extract_links_no_fragment Example.parse_html Example.urljoin Example.first_seen
           Example.accept Example.accept "home" BASE_URL
           [Example.page_a; Example.page_b]).
  - apply first_seen_ok.
  - by vm_compute.
  - apply list_elem_of_further, list_elem_of_here.
Defined.

(** ** The crawl loop, continued *)

Section CrawlMore.

Context {W : Type}.
Variable fetch_page : string → W → option string * W.
Variable parse_html : string → Bs4.node.
Variable urljoin : string → string → result string.
Variable set_iter : list string → list string.
Variable bracketed_netloc_ok : string → bool.
Variable nfkc_netloc_ok : string → bool.
Variable seed : string.
Variable budget : nat.

Local Abbreviation body :=
  (loop_body fetch_page parse_html urljoin set_iter bracketed_netloc_ok nfkc_netloc_ok).
Local Abbreviation reach :=
  (reachable fetch_page parse_html urljoin set_iter bracketed_netloc_ok nfkc_netloc_ok
             seed budget).
Local Abbreviation links_of :=
  (extract_links parse_html urljoin set_iter bracketed_netloc_ok nfkc_netloc_ok).

(** An iteration that ends normally on a URL not yet visited: what it did
    with the page it fetched, or with the failure. *)
Lemma loop_body_normal (st st' : @state W) (current_url : string) (urls : list string) :
  urls_to_visit st = current_url :: urls →
  current_url ∉ visited_urls st →
  body st = (st', None) →
  ∃ html_content,
    html_content = (fetch_page current_url (world st)).1 ∧
    visited_urls st' = {[current_url]} ∪ visited_urls st ∧
    ((truthy html_content = false ∧
      all_chunked_data st' = all_chunked_data st ∧
      urls_to_visit st' = urls ∧
      pages_scraped_count st' = pages_scraped_count st ∧
      trace st' = trace st ++ [EvFetch current_url html_content]) ∨
     (∃ html chunks new_links,
        html_content = Some html ∧ truthy html_content = true ∧
        page_chunks parse_html html current_url = Ok chunks ∧
        links_of html current_url = Ok new_links ∧
        all_chunked_data st' = all_chunked_data st ++ chunks ∧
        urls_to_visit st' = enqueue (visited_urls st') urls new_links ∧
        pages_scraped_count st' = S (pages_scraped_count st) ∧
        trace st' = trace st ++ [EvFetch current_url html_content;
                                 EvSleep REQUEST_DELAY])).
Proof.
  intros Hq Hv. unfold loop_body. rewrite Hq.
  rewrite bool_decide_eq_false_2 by done.
  destruct (fetch_page current_url (world st)) as [html_content w] eqn:Hf.
  intros Hb. exists html_content. simpl.
  destruct html_content as [html|]; [destruct (truthy (Some html)) eqn:Ht|].
  - destruct (page_chunks _ _ _) as [chunks|ex] eqn:Hp; [|discriminate].
    destruct (extract_links _ _ _ _ _ _ _) as [new_links|ex] eqn:Hl; [|discriminate].
    injection Hb as <-. simpl. split_and!; [done..|]. right.
    exists html, chunks, new_links. rewrite <- app_assoc. by split_and!.
  - injection Hb as <-. simpl. split_and!; [done..|]. left. by split_and!.
  - injection Hb as <-. simpl. split_and!; [done..|]. left. by split_and!.
Qed.

(** Induction over the states the loop head is reached in. *)
Lemma reachable_invariant (I : @state W → Prop) (w : W) :
  I (initial seed w) →
  (∀ st st' current_url urls,
     reach w st → I st →
     urls_to_visit st = current_url :: urls → current_url ∉ visited_urls st →
     body st = (st', None) → I st') →
  ∀ st, reach w st → I st.
Proof.
  intros Hinit Hstep st Hr. induction Hr as [|st st' Hr IH [Hc Hb]]; [done|].
  destruct (reachable_ok _ _ _ _ _ _ _ _ _ _ Hr) as [Hfr _].
  unfold loop_cond in Hc. apply andb_true_iff in Hc as [Hne _].
  destruct (urls_to_visit st) as [|current_url urls] eqn:Hq; [done|].
  destruct (frontier_head_fresh st current_url urls Hfr Hq) as (Hcur & _).
  exact (Hstep st st' current_url urls Hr IH Hq Hcur Hb).
Qed.

Lemma slept_app (tr tr' : list event) : slept (tr ++ tr') = slept tr + slept tr'.
Proof. induction tr as [|[] tr IH]; simpl; lia. Qed.

Lemma pages_fetched_app (tr tr' : list event) :
  pages_fetched (tr ++ tr') = pages_fetched tr ++ pages_fetched tr'.
Proof. apply omap_app. Qed.

(** X9. At every loop head, the visited set is exactly the set of the URLs
    [fetch_page] has been called with, and its size is the number of calls:
    a URL is marked visited when, and only when, a fetch of it was tried. *)
Theorem visited_are_the_fetched (w : W) (st : @state W) :
  reach w st →
  (∀ u, u ∈ visited_urls st ↔ u ∈ fetched (trace st)) ∧
  size (visited_urls st) = length (fetched (trace st)).
Proof.
  intros Hr.
  assert (Hsub : ∀ u, u ∈ visited_urls st → u ∈ fetched (trace st)).
  { pattern st. revert st Hr. apply reachable_invariant; cbv beta.
    - intros u []%not_elem_of_empty.
    - intros st st' current_url urls _ IH Hq Hv Hb u.
      destruct (loop_body_normal st st' current_url urls Hq Hv Hb)
        as (html_content & _ & -> & Hcase).
      assert (∃ tl, trace st' = trace st ++ EvFetch current_url html_content :: tl)
        as [tl ->].
      { destruct Hcase as [(_ & _ & _ & _ & ->)|(? & ? & ? & _ & _ & _ & _ & _ & _ & _ & ->)];
          by eexists. }
      rewrite fetched_app. simpl. rewrite elem_of_app.
      intros [->%elem_of_singleton|Hu]%elem_of_union.
      + right. apply list_elem_of_here.
      + left. by apply IH. }
  destruct (reachable_ok _ _ _ _ _ _ _ _ _ _ Hr) as [_ (Hnd & Hin & _)].
  assert (Heq : visited_urls st = list_to_set (fetched (trace st))).
  { apply set_eq. intros u. rewrite elem_of_list_to_set. split; [apply Hsub|apply Hin]. }
  split.
  - intros u. split; [apply Hsub|apply Hin].
  - rewrite Heq. by apply size_list_to_set.
Qed.

(** X10. At every loop head the crawl has slept [REQUEST_DELAY] seconds for
    each page counted in [pages_scraped_count], and not at all for the fetches
    that returned nothing. *)
Theorem slept_per_page (w : W) (st : @state W) :
  reach w st →
  slept (trace st) = REQUEST_DELAY * Z.of_nat (pages_scraped_count st).
Proof.
  intros Hr. pattern st. revert st Hr. apply reachable_invariant; cbv beta; [done|].
  intros st st' current_url urls _ IH Hq Hv Hb.
  destruct (loop_body_normal st st' current_url urls Hq Hv Hb)
    as (html_content & _ & _ & Hcase).
  destruct Hcase as [(_ & _ & _ & -> & ->)|(? & ? & ? & _ & _ & _ & _ & _ & _ & -> & ->)];
    rewrite slept_app, IH; simpl; unfold REQUEST_DELAY; lia.
Qed.

(** X11. At every loop head, [all_chunked_data] holds exactly the chunks of
    the pages [fetch_page] returned, page after page in the order of the
    fetches: for each such page, what the extractor and the chunker make of
    it. *)
Theorem output_is_chunks_of_pages (w : W) (st : @state W) :
  reach w st →
  ∃ chunks_of_pages,
    Forall2 (λ '(page_url, html) chunks,
               page_chunks parse_html html page_url = Ok chunks)
            (pages_fetched (trace st)) chunks_of_pages ∧
    all_chunked_data st = concat chunks_of_pages.
Proof.
  intros Hr. pattern st. revert st Hr. apply reachable_invariant; cbv beta;
    [by exists []|].
  intros st st' current_url urls _ (css & Hall & Hdata) Hq Hv Hb.
  destruct (loop_body_normal st st' current_url urls Hq Hv Hb)
    as (html_content & _ & _ & Hcase).
  destruct Hcase as [(Hf & -> & _ & _ & ->)
                    |(html & chunks & links & -> & Ht & Hp & _ & -> & _ & _ & ->)];
    rewrite pages_fetched_app.
  - exists css. split; [|done].
    assert (pages_fetched [EvFetch current_url html_content] = []) as ->;
      [|by rewrite app_nil_r].
    destruct html_content as [html|]; [|done]. cbn -[truthy]. by rewrite Hf.
  - exists (css ++ [chunks]). split.
    + apply Forall2_app; [done|]. cbn -[truthy]. rewrite Ht. by repeat constructor.
    + rewrite concat_app, Hdata. simpl. by rewrite app_nil_r.
Qed.

(** X12. When the iteration order of sets is Python's, the crawl stays in
    scope: at every loop head, each URL that is queued or visited is the seed
    or a link that [is_valid_url] accepted, cut before its first [#]. *)
Theorem crawl_stays_in_scope (w : W) (st : @state W) :
  set_order_ok set_iter →
  reach w st →
  ∀ u, u ∈ urls_to_visit st ∨ u ∈ visited_urls st →
       u = seed ∨
       ∃ absolute_link,
         is_valid_url bracketed_netloc_ok nfkc_netloc_ok absolute_link = Ok true ∧
         u = Py.before_first "#" absolute_link.
Proof.
  intros Hset Hr. pattern st. revert st Hr. apply reachable_invariant; cbv beta.
  - simpl. intros u [->%list_elem_of_singleton|[]%not_elem_of_empty]. by left.
  - intros st st' current_url urls Hr IH Hq Hv Hb u.
    destruct (reachable_ok _ _ _ _ _ _ _ _ _ _ Hr) as [Hfr _].
    destruct (frontier_head_fresh st current_url urls Hfr Hq) as (_ & _ & Hnd & Hdis).
    destruct (loop_body_normal st st' current_url urls Hq Hv Hb)
      as (html_content & _ & Hvis & Hcase).
    assert (Hold : u ∈ urls ∨ u ∈ visited_urls st' →
                   u ∈ urls_to_visit st ∨ u ∈ visited_urls st).
    { rewrite Hq, Hvis. intros [?|[->%elem_of_singleton|?]%elem_of_union].
      - left. by apply list_elem_of_further.
      - left. apply list_elem_of_here.
      - by right. }
    destruct Hcase as [(_ & _ & -> & _)|(html & chunks & links & _ & _ & _ & Hl & _ & -> & _)].
    + intros H. by apply IH, Hold.
    + destruct (enqueue_spec (visited_urls st') links urls Hnd) as (added & -> & _ & Hadd).
      { intros u' Hu'. rewrite Hvis. intros [->%elem_of_singleton|?]%elem_of_union.
        - by destruct (frontier_head_fresh st current_url urls Hfr Hq) as (_ & ? & _).
        - by apply (Hdis u'). }
      intros [[Hu|Hu]%elem_of_app|Hu]; [by apply IH, Hold; left| |by apply IH, Hold; right].
      destruct (Hadd u Hu) as (_ & _ & Hin). right.
      apply (extract_links_links _ _ _ _ _ _ _ _ Hset Hl) in Hin
        as (href & _ & abs & _ & Hval & ->).
      by exists abs.
Qed.

End CrawlMore.
Lemma visited_are_the_fetched_witness :
  (∀ u, u ∈ visited_urls after_home ↔ u ∈ fetched (trace after_home)) ∧
  size (visited_urls after_home) = length (fetched (trace after_home)).
Proof. exact (visited_are_the_fetched _ _ _ _ _ _ _ _ _ _ after_home_reachable). Defined.

Lemma slept_per_page_witness :
  slept (trace after_home) = REQUEST_DELAY * Z.of_nat (pages_scraped_count after_home).
Proof. exact (slept_per_page _ _ _ _ _ _ _ _ _ _ after_home_reachable). Defined.

Lemma output_is_chunks_of_pages_witness :
  ∃ chunks_of_pages,
    Forall2 (λ '(page_url, html) chunks,
               page_chunks Example.parse_html html page_url = Ok chunks)
            (pages_fetched (trace after_home)) chunks_of_pages ∧
    all_chunked_data after_home = concat chunks_of_pages.
Proof. exact (output_is_chunks_of_pages _ _ _ _ _ _ _ _ _ _ after_home_reachable). Defined.

Lemma crawl_stays_in_scope_witness :
  Example.page_a = BASE_URL ∨
  ∃ absolute_link,
    is_valid_url Example.accept Example.accept absolute_link = Ok true ∧
    Example.page_a = Py.before_first "#" absolute_link.
Proof.
  apply (crawl_stays_in_scope _ _ _ _ _ _ _ _ _ _ first_seen_ok after_home_reachable).
  left. vm_compute. apply list_elem_of_here.
Defined.

(** ** The chunker, continued *)

Section Tidy.

Variable chunk_size : Z.
Variable chunk_overlap : Z.
Hypothesis size_gt_1 : 1 < chunk_size.

Lemma join_docs_tidy (docs : list string) (separator : string) :
  Forall tidy (option_list (Langchain.join_docs docs separator)).
Proof.
  unfold Langchain.join_docs.
  destruct (String.eqb_spec (Py.strip (Py.join separator docs)) ""); simpl;
    repeat constructor; [done|apply strip_idemp].
Qed.

Lemma merge_loop_tidy (separator : string) (splits docs current_doc l : list string)
  (total : Z) :
  Langchain.merge_loop chunk_size chunk_overlap separator splits docs current_doc total
    = Ok l →
  Forall tidy docs → Forall tidy l.
Proof.
  revert docs current_doc total.
  induction splits as [|d splits IH]; intros docs cur total; cbn [Langchain.merge_loop].
  - intros [= <-] Hd. apply Forall_app. split; [done|apply join_docs_tidy].
  - destruct (_ && _).
    + destruct (Langchain.pop_while _ _ _ _ _ _) as [[t' cur']|]; cbn [mbind result_bind];
        [|discriminate].
      intros Hm Hd. eapply IH; [done|]. apply Forall_app. split; [done|apply join_docs_tidy].
    + cbn [mbind result_bind]. apply IH.
Qed.

Lemma merge_if_tidy (good l : list string) :
  (if Py.nonempty good
   then Langchain.merge_splits chunk_size chunk_overlap good "" else Ok []) = Ok l →
  Forall tidy l.
Proof.
  destruct (Py.nonempty good); [|by intros [= <-]].
  intros Hm. by eapply merge_loop_tidy.
Qed.

Lemma split_loop_tidy (new_separators : option (string → result (list string)))
  (splits good_splits l : list string) :
  match new_separators with
  | None => Forall (λ s, Py.len s < chunk_size) splits
  | Some split_text => ∀ s k, split_text s = Ok k → Forall tidy k
  end →
  Langchain.split_loop chunk_size chunk_overlap new_separators splits good_splits = Ok l →
  Forall tidy l.
Proof.
  revert good_splits l.
  induction splits as [|s splits IH]; intros good l Hrec; cbn [Langchain.split_loop].
  - apply merge_if_tidy.
  - destruct (Py.len s <? chunk_size) eqn:Hs.
    + apply IH. destruct new_separators; [done|]. by apply Forall_cons in Hrec as [_ ?].
    + destruct (if Py.nonempty good then _ else _) as [m|] eqn:Hm;
        cbn [mbind result_bind]; [|discriminate].
      apply merge_if_tidy in Hm.
      destruct new_separators as [split_text|].
      * destruct (split_text s) as [o|] eqn:Ho; cbn [mbind result_bind]; [|discriminate].
        destruct (Langchain.split_loop _ _ _ splits []) as [r|] eqn:Hr;
          cbn [mbind result_bind]; [|discriminate].
        intros [= <-]. rewrite !Forall_app. split_and!; [done|by eapply Hrec|by eapply IH].
      * apply Forall_cons in Hrec as [Hsmall _]. lia.
Qed.

Lemma split_text_from_tidy (last : string) (separators : list string) (text : string)
  (l : list string) :
  "" ∈ separators →
  Langchain.split_text_from chunk_size chunk_overlap last separators text = Ok l →
  Forall tidy l.
Proof.
  revert text l. induction separators as [|_s rest IH]; intros text l Hin.
  - by apply elem_of_nil in Hin.
  - cbn [Langchain.split_text_from].
    destruct (String.eqb_spec _s "") as [->|Hne].
    + apply split_loop_tidy.
      unfold Langchain.split_text_with_regex. simpl.
      apply Forall_forall. intros s [Hs _]%list_elem_of_In%filter_In.
      pose proof (chars_small chunk_size size_gt_1 text) as Hc.
      rewrite Forall_forall in Hc. by apply Hc, list_elem_of_In.
    + apply elem_of_cons in Hin as [Heq|Hin]; [done|].
      destruct (Py.contains _s text); [|by apply IH].
      apply split_loop_tidy.
      destruct rest as [|r rest']; [by apply elem_of_nil in Hin|].
      intros s k. by apply IH.
Qed.

End Tidy.

(** X13. No chunk of a page is empty, and none starts or ends with
    whitespace: the chunker drops the pieces that are blank and strips the
    others. *)
Theorem chunks_are_tidy (page_title page_text page_url : string) :
  ∃ chunks,
    chunk_page_content page_title page_text page_url = Ok chunks ∧
    ∀ c, c ∈ chunks → text c ≠ "" ∧ Py.strip (text c) = text c.
Proof.
  destruct (chunk_page_content_ok page_title page_text page_url) as (docs & Hc & _ & Hnil).
  eexists. split; [done|]. intros c Hin.
  apply list_elem_of_lookup in Hin as [i Hi].
  apply list_lookup_imap_Some in Hi as (doc & Hdoc & ->). simpl.
  destruct (String.eqb_spec page_text "") as [->|Hne].
  { rewrite Hnil in Hdoc by done. done. }
  unfold chunk_page_content in Hc.
  rewrite (proj2 (String.eqb_neq _ _) Hne) in Hc.
  unfold Langchain.create_documents, Langchain.split_text in Hc.
  destruct (Langchain.split_text_from _ _ _ _ _) as [l|] eqn:Hl; [|discriminate].
  cbn [mbind result_bind] in Hc. injection Hc as Hc.
  assert (Forall tidy l) as Ht.
  { eapply (split_text_from_tidy 2000 200); [lia| |done].
    unfold Langchain.separators. set_solver. }
  assert (l = docs) as ->.
  { apply list_eq. intros j. apply (f_equal (λ k, text <$> k !! j)) in Hc.
    rewrite !list_lookup_imap in Hc.
    destruct (l !! j), (docs !! j); simpl in Hc; congruence. }
  rewrite Forall_forall in Ht. apply Ht. by eapply list_elem_of_lookup_2.
Qed.
(** ** The structured sections of the extractor *)

Section Sections.

(** the step of the loop over the items of the instructions *)
Local Abbreviation add_step :=
  (λ '(acc, step_count) item,
     let step_text := clean_text (Bs4.get_text item) in
     if negb (String.eqb step_text EmptyString)
     then (acc +:+ pretty step_count +:+ ". " +:+ step_text +:+ " ", (step_count + 1)%nat)
     else (acc, step_count)).

Lemma instructions_fold (items : list Bs4.node) (acc : string) (step_count : nat) :
  Py.len acc ≤ Py.len (foldl add_step (acc, step_count) items).1 ∧
  (Py.len acc < Py.len (foldl add_step (acc, step_count) items).1 ↔
   ∃ item, item ∈ items ∧ clean_text (Bs4.get_text item) ≠ "").
Proof.
  revert acc step_count. induction items as [|item items IH]; intros acc n.
  - simpl. split; [lia|]. split; [lia|]. by intros (? & []%elem_of_nil & _).
  - cbn [foldl].
    destruct (String.eqb_spec (clean_text (Bs4.get_text item)) "") as [He|Hne];
      cbn [negb].
    + destruct (IH acc n) as [Hle Hiff]. split; [done|]. rewrite Hiff. split.
      * intros (i & Hi & Hn). exists i. split; [by apply list_elem_of_further|done].
      * intros (i & [->|Hi]%elem_of_cons & Hn); [done|by exists i].
    + set (acc' := acc +:+ _). destruct (IH acc' (n + 1)%nat) as [Hle _].
      assert (Py.len acc < Py.len acc').
      { unfold acc'. rewrite !len_app. pose proof (len_nonneg (pretty n)).
        pose proof (len_nonneg (clean_text (Bs4.get_text item))).
        change (Py.len ". ") with 2. change (Py.len " ") with 1.
        set (a := Py.len (pretty n)) in *. set (b := Py.len (clean_text _)) in *.
        clearbody a b. lia. }
      split; [etrans; [|exact Hle]; lia|].
      split; [|intros _; eapply Z.lt_le_trans; [exact H|exact Hle]].
      intros _. exists item. split; [apply list_elem_of_here|done].
Qed.

Lemma ingredients_fold (items : list Bs4.node) (acc : string) :
  Py.len acc < Py.len (foldl (λ acc item, acc +:+ clean_text (Bs4.get_text item) +:+ "; ")
                             acc items) ↔ items ≠ [].
Proof.
  assert (Hle : ∀ items acc,
            Py.len acc ≤ Py.len (foldl (λ acc item,
                                          acc +:+ clean_text (Bs4.get_text item) +:+ "; ")
                                       acc items)).
  { clear. induction items as [|item items IH]; intros acc; simpl; [lia|].
    etrans; [|apply IH]. rewrite !len_app.
    pose proof (len_nonneg (clean_text (Bs4.get_text item))). change (Py.len "; ") with 2.
    lia. }
  destruct items as [|item items]; simpl; [split; [lia|done]|].
  split; [done|]. intros _. eapply Z.lt_le_trans; [|apply Hle].
  rewrite !len_app. pose proof (len_nonneg (clean_text (Bs4.get_text item))).
  change (Py.len "; ") with 2. lia.
Qed.

(** the step of the loop over the rows of the nutrition table *)
Local Abbreviation add_row :=
  (λ acc row,
     let cells := map (λ cell, clean_text (Bs4.get_text cell))
                      (Bs4.find_all ["td"; "th"] row) in
     match cells with
     | [] => acc
     | _ => acc +:+ Py.join " | " cells +:+ "; "
     end).

Lemma nutrition_fold (rows : list Bs4.node) (acc : string) :
  Py.len acc ≤ Py.len (foldl add_row acc rows) ∧
  (Py.len acc < Py.len (foldl add_row acc rows) ↔
   ∃ row, row ∈ rows ∧ Bs4.find_all ["td"; "th"] row ≠ []).
Proof.
  revert acc. induction rows as [|row rows IH]; intros acc.
  - simpl. split; [lia|]. split; [lia|]. by intros (? & []%elem_of_nil & _).
  - cbn [foldl]. destruct (Bs4.find_all ["td"; "th"] row) as [|cell cells] eqn:Hc.
    + cbn [map]. destruct (IH acc) as [Hle Hiff]. split; [done|]. rewrite Hiff. split.
      * intros (r & Hr & Hn). exists r. split; [by apply list_elem_of_further|done].
      * intros (r & [->|Hr]%elem_of_cons & Hn); [congruence|by exists r].
    + cbn [map]. set (acc' := acc +:+ _). destruct (IH acc') as [Hle _].
      assert (Py.len acc < Py.len acc').
      { unfold acc'. rewrite !len_app. pose proof (len_nonneg (Py.join " | "
          (clean_text (Bs4.get_text cell) :: map (λ c, clean_text (Bs4.get_text c)) cells))).
        change (Py.len "; ") with 2. lia. }
      split; [etrans; [|exact Hle]; lia|].
      split; [|intros _; eapply Z.lt_le_trans; [exact H|exact Hle]].
      intros _. exists row. split; [apply list_elem_of_here|]. by rewrite Hc.
Qed.

End Sections.

(** X14. The instructions section is emitted exactly when the region has an
    instructions container with an item whose cleaned text is not empty: items
    that are blank are neither numbered nor counted, and a container of blank
    items emits nothing. *)
Theorem instructions_emitted_iff (content_area : Bs4.node) :
  instructions_texts content_area ≠ [] ↔
  ∃ instructions_section item,
    Bs4.select_one instructions_selectors content_area = Some instructions_section ∧
    item ∈ Bs4.find_all ["li"; "p"] instructions_section ∧
    clean_text (Bs4.get_text item) ≠ "".
Proof.
  unfold instructions_texts.
  destruct (Bs4.select_one instructions_selectors content_area) as [sec|].
  - pose proof (instructions_fold (Bs4.find_all ["li"; "p"] sec) "Instructions: " 1)
      as [_ Hiff].
    destruct (foldl _ _ _) as [acc n]. simpl in Hiff.
    destruct (Py.len "Instructions: " <? Py.len acc) eqn:Hlt.
    + split; [|done]. intros _. apply Z.ltb_lt, Hiff in Hlt as (item & Hin & Hne).
      by exists sec, item.
    + split; [done|]. intros (sec' & item & [= <-] & Hin & Hne).
      assert (Py.len "Instructions: " < Py.len acc) by (apply Hiff; by exists item). lia.
  - split; [done|]. by intros (? & ? & ? & _).
Qed.

(** X15. The ingredients section is emitted exactly when the region has an
    ingredients container with at least one list item or paragraph, and the
    nutrition section exactly when the region has a nutrition table with a
    row that has a cell: in both, the text of the items plays no part. *)
Theorem ingredients_nutrition_emitted_iff (content_area : Bs4.node) :
  (ingredients_texts content_area ≠ [] ↔
   ∃ ingredients_section,
     Bs4.select_one ingredients_selectors content_area = Some ingredients_section ∧
     Bs4.find_all ["li"; "p"] ingredients_section ≠ []) ∧
  (nutrition_texts content_area ≠ [] ↔
   ∃ nutrition_table row,
     Bs4.select_one nutrition_selectors content_area = Some nutrition_table ∧
     row ∈ Bs4.find_all ["tr"] nutrition_table ∧
     Bs4.find_all ["td"; "th"] row ≠ []).
Proof.
  split.
  - unfold ingredients_texts.
    destruct (Bs4.select_one ingredients_selectors content_area) as [sec|].
    + pose proof (ingredients_fold (Bs4.find_all ["li"; "p"] sec) "Ingredients: ") as Hiff.
      destruct (Py.len "Ingredients: " <? Py.len _) eqn:Hlt.
      * split; [|done]. intros _. exists sec. split; [done|]. by apply Hiff, Z.ltb_lt.
      * split; [done|]. intros (sec' & [= <-] & Hne).
        exfalso. apply Z.ltb_nlt in Hlt. by apply Hlt, Hiff.
    + split; [done|]. by intros (? & ? & _).
  - unfold nutrition_texts.
    destruct (Bs4.select_one nutrition_selectors content_area) as [table|].
    + pose proof (nutrition_fold (Bs4.find_all ["tr"] table) "Nutritional Information: ")
        as [_ Hiff].
      destruct (Py.len "Nutritional Information: " <? Py.len _) eqn:Hlt.
      * split; [|done]. intros _. apply Z.ltb_lt, Hiff in Hlt as (row & Hin & Hne).
        by exists table, row.
      * split; [done|]. intros (table' & row & [= <-] & Hin & Hne).
        exfalso. apply Z.ltb_nlt in Hlt. apply Hlt, Hiff. by exists row.
    + split; [done|]. by intros (? & ? & ? & _).
Qed.
(** ** Boilerplate removal *)

Section Decompose.

(** Induction on a parse tree, with the property known for the children. *)
Lemma node_ind_deep (P : Bs4.node → Prop) :
  (∀ kind s, P (Bs4.NavigableString kind s)) →
  (∀ name attrs contents, Forall P contents → P (Bs4.Tag name attrs contents)) →
  ∀ n, P n.
Proof.
  intros Hs Ht. fix go 1. intros [kind s|name attrs cs]; [apply Hs|]. apply Ht.
  induction cs as [|c cs IH]; constructor; [apply go|apply IH].
Qed.

Lemma subtree_descendants (n : Bs4.node) : Bs4.subtree n = n :: Bs4.descendants n.
Proof. by destruct n. Qed.

(** [decompose] removes elements, it changes no name and no attribute. *)
Lemma matches_decompose_all (sel sel' : Bs4.selector) (n : Bs4.node) :
  Bs4.matches sel' (Bs4.decompose_all sel n) = Bs4.matches sel' n.
Proof. by destruct n. Qed.

(** What is left below [n] is what did not match, itself pruned. *)
Lemma descendants_decompose_all (sel : Bs4.selector) (n d : Bs4.node) :
  d ∈ Bs4.descendants (Bs4.decompose_all sel n) →
  ∃ d0, d0 ∈ Bs4.descendants n ∧ Bs4.matches sel d0 = false ∧
        d = Bs4.decompose_all sel d0.
Proof.
  revert d. induction n as [kind s|name attrs cs IH] using node_ind_deep; intros d.
  - by intros ?%elem_of_nil.
  - cbn [Bs4.decompose_all Bs4.descendants].
    induction IH as [|c cs Hc _ IHcs]; [by intros ?%elem_of_nil|].
    destruct (Bs4.matches sel c) eqn:Hm.
    + intros (d0 & Hd0 & Hrest)%IHcs. exists d0. split; [|done].
      cbn [flat_map]. apply elem_of_app. by right.
    + cbn [flat_map]. rewrite !subtree_descendants.
      intros [[->|Hd]%elem_of_cons|Hd]%elem_of_app.
      * exists c. split_and!; [|done..]. apply elem_of_app. left. apply list_elem_of_here.
      * apply Hc in Hd as (d0 & Hd0 & Hrest). exists d0. split; [|done].
        apply elem_of_app. left. by apply list_elem_of_further.
      * apply IHcs in Hd as (d0 & Hd0 & Hrest). exists d0. split; [|done].
        apply elem_of_app. by right.
Qed.

Lemma decompose_loop_clean (selectors : list Bs4.selector) (soup d : Bs4.node) :
  d ∈ Bs4.descendants
        (foldl (λ soup selector, Bs4.decompose_all selector soup) soup selectors) →
  Bs4.matches_any selectors d = false.
Proof.
  revert d. induction selectors as [|sel selectors IH] using rev_ind; intros d; [done|].
  rewrite foldl_app. cbn [foldl].
  intros (d0 & Hd0 & Hm & ->)%descendants_decompose_all.
  unfold Bs4.matches_any. rewrite existsb_app. cbn [existsb].
  rewrite matches_decompose_all, Hm, orb_false_r.
  apply IH in Hd0. unfold Bs4.matches_any in Hd0.
  rewrite <- Hd0. clear. induction selectors as [|s selectors IH]; [done|].
  cbn [existsb]. by rewrite matches_decompose_all, IH.
Qed.

End Decompose.

(** X16. After the boilerplate loop of [extract_meaningful_content], no
    element of the tree matches any of the boilerplate selectors, at any
    depth: the text that is extracted comes from a tree without header,
    footer, nav, aside, script or style elements and without the banner,
    navigation and sidebar classes. *)
Theorem boilerplate_is_removed (soup : Bs4.node) :
  Forall (λ d, Bs4.matches_any boilerplate_selectors d = false)
         (Bs4.descendants
            (foldl (λ soup selector, Bs4.decompose_all selector soup)
                   soup boilerplate_selectors)).
Proof. apply Forall_forall. intros d. apply decompose_loop_clean. Qed.
(** ** Order of the crawl *)

Section CrawlOrder.

Context {W : Type}.
Variable fetch_page : string → W → option string * W.
Variable parse_html : string → Bs4.node.
Variable urljoin : string → string → result string.
Variable set_iter : list string → list string.
Variable bracketed_netloc_ok : string → bool.
Variable nfkc_netloc_ok : string → bool.
Variable seed : string.
Variable budget : nat.

Local Abbreviation body :=
  (loop_body fetch_page parse_html urljoin set_iter bracketed_netloc_ok nfkc_netloc_ok).
Local Abbreviation reach :=
  (reachable fetch_page parse_html urljoin set_iter bracketed_netloc_ok nfkc_netloc_ok
             seed budget).

(** X17. The crawl is first in, first out: the URLs fetched so far followed
    by the queue list the URLs in the order they were discovered, and an
    iteration only appends to that list. So every discovered URL is fetched
    before any URL discovered after it. *)
Theorem discovery_order_is_kept (w : W) (st st' : @state W) :
  reach w st →
  step fetch_page parse_html urljoin set_iter bracketed_netloc_ok nfkc_netloc_ok
       budget st st' →
  ∃ added,
    fetched (trace st') ++ urls_to_visit st' =
    (fetched (trace st) ++ urls_to_visit st) ++ added.
Proof.
  intros Hr [Hc Hb].
  destruct (reachable_ok _ _ _ _ _ _ _ _ _ _ Hr) as [Hfr _].
  unfold loop_cond in Hc. apply andb_true_iff in Hc as [Hne _].
  destruct (urls_to_visit st) as [|current_url urls] eqn:Hq; [done|].
  destruct (frontier_head_fresh st current_url urls Hfr Hq) as (Hcur & Hcu & Hnd & Hdis).
  destruct (loop_body_normal _ _ _ _ _ _ st st' current_url urls Hq Hcur Hb)
    as (html_content & _ & Hvis & Hcase).
  destruct Hcase as [(_ & _ & -> & _ & ->)
                    |(html & chunks & links & _ & _ & _ & _ & _ & -> & _ & ->)].
  - exists []. rewrite fetched_app, app_nil_r, <- app_assoc. done.
  - destruct (enqueue_spec (visited_urls st') links urls Hnd) as (added & -> & _).
    { intros u Hu. rewrite Hvis. intros [->%elem_of_singleton|?]%elem_of_union; [done|].
      by apply (Hdis u). }
    exists added. rewrite fetched_app. simpl. by rewrite <- !app_assoc.
Qed.

(** X18. A fetch that returns nothing, or the empty string, is a failed
    fetch: the iteration marks the URL visited and does nothing else. It
    counts no page, adds no chunk, looks for no link and does not sleep. *)
Theorem failed_fetch_only_marks_visited (st : @state W) (current_url : string)
  (urls : list string) :
  urls_to_visit st = current_url :: urls →
  current_url ∉ visited_urls st →
  truthy (fetch_page current_url (world st)).1 = false →
  body st =
  (mkState (all_chunked_data st) urls ({[current_url]} ∪ visited_urls st)
           (pages_scraped_count st) (fetch_page current_url (world st)).2
           (trace st ++ [EvFetch current_url (fetch_page current_url (world st)).1]),
   None).
Proof.
  intros Hq Hv Ht. unfold loop_body. rewrite Hq, bool_decide_eq_false_2 by done.
  destruct (fetch_page current_url (world st)) as [[html|] w']; simpl in *; [|done].
  by rewrite Ht.
Qed.

End CrawlOrder.

Lemma discovery_order_is_kept_witness :
  ∃ added,
    fetched (trace after_home) ++ urls_to_visit after_home =
    (fetched (trace (initial BASE_URL ())) ++ urls_to_visit (initial BASE_URL ())) ++ added.
Proof.
  apply (discovery_order_is_kept Example.fetch_page Example.parse_html Example.urljoin
           Example.first_seen Example.accept Example.accept BASE_URL MAX_PAGES_TO_SCRAPE
           () (initial BASE_URL ()) after_home).
  - apply reach_initial.
  - split; [reflexivity|by vm_compute].
Defined.

(** The state of the example run when page [a], which cannot be fetched, is
    at the head of the queue. *)
Lemma failed_fetch_only_marks_visited_witness :
  loop_body Example.fetch_page Example.parse_html Example.urljoin Example.first_seen
            Example.accept Example.accept after_home =
  (mkState (all_chunked_data after_home) [Example.page_b]
           ({[Example.page_a]} ∪ visited_urls after_home)
           (pages_scraped_count after_home) ()
           (trace after_home ++ [EvFetch Example.page_a None]),
   None).
Proof.
  apply (failed_fetch_only_marks_visited Example.fetch_page Example.parse_html
           Example.urljoin Example.first_seen Example.accept Example.accept
           after_home Example.page_a [Example.page_b]).
  - by vm_compute.
  - apply (bool_decide_unpack _). by vm_compute.
  - by vm_compute.
Defined.
(** ** The chunker keeps the text *)

Section Occurs.

Lemma occurs_in_refl (t : string) : occurs_in t t.
Proof. exists "", "". by rewrite app_empty_l, app_empty_r. Qed.

Lemma occurs_in_trans (t s c : string) : occurs_in t s → occurs_in s c → occurs_in t c.
Proof.
  intros (l & r & ->) (l' & r' & ->). exists (l +:+ l'), (r' +:+ r).
  by rewrite !app_assoc_str.
Qed.

Lemma occurs_in_app (l c r : string) : occurs_in (l +:+ c +:+ r) c.
Proof. by exists l, r. Qed.

Lemma lstrip_by_suffix (p : ascii → bool) (s : string) :
  ∃ l, s = l +:+ Py.lstrip_by p s.
Proof.
  induction s as [|a s [l IH]]; [by exists ""|]. simpl. destruct (p a).
  - exists (String a l). by rewrite app_String, <- IH.
  - by exists "".
Qed.

Lemma rstrip_by_prefix (p : ascii → bool) (s : string) :
  ∃ r, s = Py.rstrip_by p s +:+ r.
Proof.
  induction s as [|a s [r IH]]; [by exists ""|]. rewrite rstrip_by_unfold.
  destruct (Py.rstrip_by p s) as [|b t].
  - rewrite app_empty_l in IH. subst r. destruct (p a).
    + by exists (String a s).
    + by exists s.
  - exists r. by rewrite app_String, <- IH.
Qed.

Lemma strip_occurs (s : string) : occurs_in s (Py.strip s).
Proof.
  unfold Py.strip. destruct (lstrip_by_suffix Py.is_space s) as [l Hl].
  destruct (rstrip_by_prefix Py.is_space (Py.lstrip_by Py.is_space s)) as [r Hr].
  exists l, r. by rewrite <- Hr.
Qed.

Lemma join_empty_cons (x : string) (l : list string) :
  Py.join "" (x :: l) = x +:+ Py.join "" l.
Proof. destruct l; simpl; [by rewrite app_empty_r|done]. Qed.

Lemma join_empty_app (l k : list string) :
  Py.join "" (l ++ k) = Py.join "" l +:+ Py.join "" k.
Proof.
  induction l as [|x l IH]; [done|].
  rewrite <- app_comm_cons, !join_empty_cons, IH. by rewrite app_assoc_str.
Qed.

Lemma join_cons_cons (sep x y : string) (l : list string) :
  Py.join sep (x :: y :: l) = x +:+ sep +:+ Py.join sep (y :: l).
Proof. reflexivity. Qed.

Lemma rev_app_spec (s t : string) : String.rev_app s t = String.rev s +:+ t.
Proof.
  unfold String.rev. revert t. induction s as [|a s IH]; intros t; [done|]. simpl.
  rewrite (IH (String a t)), (IH (String a "")). by rewrite app_assoc_str.
Qed.

Lemma rev_String (a : ascii) (s : string) :
  String.rev (String a s) = String.rev s +:+ String a "".
Proof. unfold String.rev at 1. simpl. apply rev_app_spec. Qed.

Lemma re_split_go_nonempty (sep : string) (skip : nat) (cur s : string) :
  Langchain.re_split_go sep skip cur s ≠ [].
Proof.
  revert skip cur. induction s as [|a s IH]; intros skip cur; [done|].
  cbn [Langchain.re_split_go].
  destruct skip; [|apply IH]. destruct (String.prefix sep (String a s)); [done|apply IH].
Qed.

(** Joining the pieces of [re.split] with the separator gives the text back;
    [u] is the rest of a separator that the scan is passing. *)
Lemma re_split_go_join (sep : string) (s : string) :
  sep ≠ "" →
  ∀ (skip : nat) (cur u s' : string),
    s = u +:+ s' → String.length u = skip →
    Py.join sep (Langchain.re_split_go sep skip cur s) = String.rev cur +:+ s'.
Proof.
  intros Hsep. induction s as [|a s IH]; intros skip cur u s' Hs Hu.
  - destruct u; [|discriminate]. rewrite app_empty_l in Hs. subst s'. simpl.
    by rewrite app_empty_r.
  - cbn [Langchain.re_split_go]. destruct skip as [|k].
    + destruct u; [|discriminate]. rewrite app_empty_l in Hs. subst s'.
      destruct (String.prefix sep (String a s)) eqn:Hp.
      * apply prefix_spec in Hp as [r Hr].
        destruct sep as [|b sep0]; [done|].
        rewrite app_String in Hr. injection Hr as <- ->.
        pose proof (re_split_go_nonempty (String a sep0) (String.length (String a sep0) - 1)
                      "" (sep0 +:+ r)) as Hne.
        destruct (Langchain.re_split_go _ _ _ _) as [|y l] eqn:Hgo; [done|].
        rewrite join_cons_cons, <- Hgo.
        rewrite (IH _ "" sep0 r) by (simpl; done || lia).
        change (String.rev "") with "". by rewrite app_empty_l, ?app_String.
      * rewrite (IH 0%nat (String a cur) "" s) by done.
        by rewrite rev_String, app_assoc_str.
    + destruct u as [|b u]; [discriminate|]. rewrite app_String in Hs.
      injection Hs as -> ->. injection Hu as Hu. by apply (IH k cur u s').
Qed.

Lemma join_empty_filter (l : list string) :
  Py.join "" (List.filter (λ s, negb (String.eqb s EmptyString)) l) = Py.join "" l.
Proof.
  induction l as [|x l IH]; [done|]. simpl List.filter.
  destruct (String.eqb_spec x "") as [->|Hne]; simpl negb; cbv iota.
  - by rewrite join_empty_cons, app_empty_l.
  - by rewrite !join_empty_cons, IH.
Qed.

Lemma join_empty_chars (s : string) : Py.join "" (Langchain.chars s) = s.
Proof.
  induction s as [|a s IH]; [done|]. cbn [Langchain.chars].
  by rewrite join_empty_cons, IH.
Qed.

Lemma join_app_head (sep p y : string) (l : list string) :
  Py.join sep ((p +:+ y) :: l) = p +:+ Py.join sep (y :: l).
Proof. destruct l; [done|]. by rewrite !join_cons_cons, app_assoc_str. Qed.

Lemma join_kept_separators (sep first : string) (others : list string) :
  Py.join "" (first :: map (λ piece, sep +:+ piece) others) = Py.join sep (first :: others).
Proof.
  revert first. induction others as [|y others IH]; intros first; [done|].
  cbn [map]. by rewrite join_empty_cons, IH, join_app_head, join_cons_cons.
Qed.

(** The pieces a text is split in make up the text. *)
Lemma split_text_with_regex_join (text separator : string) :
  Py.join "" (Langchain.split_text_with_regex text separator) = text.
Proof.
  unfold Langchain.split_text_with_regex. rewrite join_empty_filter.
  destruct (String.eqb_spec separator "") as [->|Hne]; simpl negb; cbv iota.
  - apply join_empty_chars.
  - unfold Langchain.re_split.
    pose proof (re_split_go_join separator text Hne 0 "" "" text eq_refl eq_refl) as Hj.
    destruct (Langchain.re_split_go separator 0 "" text) as [|first others];
      [done|]. by rewrite join_kept_separators, Hj.
Qed.

End Occurs.
Section Kept.

Variable chunk_size : Z.
Variable chunk_overlap : Z.

Lemma join_docs_occurs (docs : list string) :
  Forall (occurs_in (Py.join "" docs)) (option_list (Langchain.join_docs docs "")).
Proof.
  unfold Langchain.join_docs. destruct (String.eqb _ _); simpl; repeat constructor.
  apply strip_occurs.
Qed.

(** the inner loop of [_merge_splits] drops pieces from the head only *)
Lemma pop_while_suffix (separator_len _len total total' : Z)
  (current_doc current_doc' : list string) :
  Langchain.pop_while chunk_size chunk_overlap separator_len _len total current_doc
    = Ok (total', current_doc') →
  ∃ dropped, current_doc = dropped ++ current_doc'.
Proof.
  revert total. induction current_doc as [|first rest IH]; intros total;
    cbn [Langchain.pop_while]; destruct (_ || _).
  - discriminate.
  - intros [= _ <-]. by exists [].
  - intros (dropped & ->)%IH. by exists (first :: dropped).
  - intros [= _ <-]. by exists [].
Qed.

Lemma occurs_in_join_part (t : string) (l m r : list string) :
  occurs_in t (Py.join "" (l ++ m ++ r)) → occurs_in t (Py.join "" m).
Proof.
  intros H. eapply occurs_in_trans; [exact H|].
  rewrite !join_empty_app. apply occurs_in_app.
Qed.

Lemma merge_loop_occurs (t : string) (splits docs current_doc l : list string)
  (total : Z) :
  Langchain.merge_loop chunk_size chunk_overlap "" splits docs current_doc total = Ok l →
  Forall (occurs_in t) docs →
  occurs_in t (Py.join "" (current_doc ++ splits)) →
  Forall (occurs_in t) l.
Proof.
  revert docs current_doc total.
  induction splits as [|d splits IH]; intros docs cur total; cbn [Langchain.merge_loop].
  - intros [= <-] Hd Hc. apply Forall_app. split; [done|].
    eapply Forall_impl; [apply join_docs_occurs|]. intros c Hcc.
    eapply occurs_in_trans; [|exact Hcc]. by rewrite app_nil_r in Hc.
  - destruct (_ && _).
    + destruct (Langchain.pop_while _ _ _ _ _ _) as [[t' cur']|] eqn:Hp;
        cbn [mbind result_bind]; [|discriminate].
      apply pop_while_suffix in Hp as [dropped ->].
      intros Hm Hd Hc. eapply IH; [exact Hm| |].
      * apply Forall_app. split; [done|].
        eapply Forall_impl; [apply join_docs_occurs|]. intros c Hcc.
        eapply occurs_in_trans; [|exact Hcc].
        apply (occurs_in_join_part t [] (dropped ++ cur') (d :: splits)). exact Hc.
      * rewrite <- app_assoc. simpl.
        apply (occurs_in_join_part t dropped (cur' ++ d :: splits) []).
        by rewrite app_nil_r, app_assoc.
    + cbn [mbind result_bind]. intros Hm Hd Hc. eapply IH; [exact Hm|done|].
      by rewrite <- app_assoc.
Qed.

Lemma merge_if_occurs (t : string) (good l : list string) :
  (if Py.nonempty good
   then Langchain.merge_splits chunk_size chunk_overlap good "" else Ok []) = Ok l →
  occurs_in t (Py.join "" good) →
  Forall (occurs_in t) l.
Proof.
  destruct (Py.nonempty good); [|by intros [= <-]].
  intros Hm Hg. eapply merge_loop_occurs; [exact Hm|done|]. done.
Qed.

Lemma split_loop_occurs (t : string)
  (new_separators : option (string → result (list string)))
  (splits good_splits l : list string) :
  match new_separators with
  | None => True
  | Some split_text => ∀ s k, split_text s = Ok k → Forall (occurs_in s) k
  end →
  Langchain.split_loop chunk_size chunk_overlap new_separators splits good_splits = Ok l →
  occurs_in t (Py.join "" (good_splits ++ splits)) →
  Forall (occurs_in t) l.
Proof.
  intros Hrec. revert good_splits l.
  induction splits as [|s splits IH]; intros good l; cbn [Langchain.split_loop].
  - rewrite app_nil_r. apply merge_if_occurs.
  - destruct (Py.len s <? chunk_size).
    + intros Hl Hc. eapply IH; [exact Hl|]. by rewrite <- app_assoc.
    + destruct (if Py.nonempty good then _ else _) as [m|] eqn:Hm;
        cbn [mbind result_bind]; [|discriminate].
      intros Hl Hc.
      assert (Hgood : occurs_in t (Py.join "" good)).
      { apply (occurs_in_join_part t [] good (s :: splits)). exact Hc. }
      assert (Hs : occurs_in t s).
      { eapply occurs_in_trans;
          [apply (occurs_in_join_part t good [s] splits); exact Hc|].
        apply occurs_in_refl. }
      assert (Hrest : occurs_in t (Py.join "" ([] ++ splits))).
      { apply (occurs_in_join_part t (good ++ [s]) splits []).
        by rewrite app_nil_r, <- app_assoc. }
      apply (merge_if_occurs t) in Hm; [|done].
      destruct new_separators as [split_text|].
      * destruct (split_text s) as [o|] eqn:Ho; cbn [mbind result_bind] in Hl;
          [|discriminate].
        destruct (Langchain.split_loop _ _ _ splits []) as [r|] eqn:Hr;
          cbn [mbind result_bind] in Hl; [|discriminate].
        injection Hl as <-. rewrite !Forall_app. split_and!; [done| |by eapply IH].
        eapply Forall_impl; [by eapply Hrec|]. intros c Hcc.
        exact (occurs_in_trans t s c Hs Hcc).
      * cbn [mbind result_bind] in Hl.
        destruct (Langchain.split_loop _ _ _ splits []) as [r|] eqn:Hr;
          cbn [mbind result_bind] in Hl; [|discriminate].
        injection Hl as <-. rewrite Forall_app. split; [done|].
        constructor; [done|by eapply IH].
Qed.

Lemma split_text_from_occurs (last : string) (separators : list string) (text : string)
  (l : list string) :
  Langchain.split_text_from chunk_size chunk_overlap last separators text = Ok l →
  Forall (occurs_in text) l.
Proof.
  assert (Hall : ∀ sep, occurs_in text
            (Py.join "" ([] ++ Langchain.split_text_with_regex text sep))).
  { intros sep. simpl. rewrite split_text_with_regex_join. apply occurs_in_refl. }
  revert text l Hall. induction separators as [|_s rest IH]; intros text l Hall;
    cbn [Langchain.split_text_from].
  - intros Hl. by eapply (split_loop_occurs text None).
  - destruct (String.eqb _s ""); [intros Hl; by eapply (split_loop_occurs text None)|].
    destruct (Py.contains _s text).
    + intros Hl. eapply split_loop_occurs; [|exact Hl|apply Hall].
      destruct rest as [|r rest']; [done|]. intros s k Hk. eapply IH; [|exact Hk].
      intros sep. simpl. rewrite split_text_with_regex_join. apply occurs_in_refl.
    + by apply IH.
Qed.

End Kept.

(** X19. The chunker makes up no text: the text of every chunk is a
    contiguous part of the page text it was given. *)
Theorem chunks_occur_in_page (page_title page_text page_url : string) :
  ∃ chunks,
    chunk_page_content page_title page_text page_url = Ok chunks ∧
    ∀ c, c ∈ chunks → ∃ l r, page_text = l +:+ text c +:+ r.
Proof.
  destruct (chunk_page_content_ok page_title page_text page_url) as (docs & Hc & _ & Hnil).
  eexists. split; [done|]. intros c Hin.
  apply list_elem_of_lookup in Hin as [i Hi].
  apply list_lookup_imap_Some in Hi as (doc & Hdoc & ->). simpl.
  destruct (String.eqb_spec page_text "") as [->|Hne].
  { rewrite Hnil in Hdoc by done. done. }
  unfold chunk_page_content in Hc.
  rewrite (proj2 (String.eqb_neq _ _) Hne) in Hc.
  unfold Langchain.create_documents, Langchain.split_text in Hc.
  destruct (Langchain.split_text_from _ _ _ _ _) as [l|] eqn:Hl; [|discriminate].
  cbn [mbind result_bind] in Hc. injection Hc as Hc.
  apply split_text_from_occurs in Hl.
  assert (l = docs) as ->.
  { apply list_eq. intros j. apply (f_equal (λ k, text <$> k !! j)) in Hc.
    rewrite !list_lookup_imap in Hc.
    destruct (l !! j), (docs !! j); simpl in Hc; congruence. }
  rewrite Forall_forall in Hl. apply Hl. by eapply list_elem_of_lookup_2.
Qed.
(** ** What the crawl collects *)

Section Collected.

Context {W : Type}.
Variable fetch_page : string → W → option string * W.
Variable parse_html : string → Bs4.node.
Variable urljoin : string → string → result string.
Variable set_iter : list string → list string.
Variable bracketed_netloc_ok : string → bool.
Variable nfkc_netloc_ok : string → bool.
Variable seed : string.
Variable budget : nat.

Local Abbreviation reach :=
  (reachable fetch_page parse_html urljoin set_iter bracketed_netloc_ok nfkc_netloc_ok
             seed budget).

Lemma page_chunks_ok (html page_url : string) (chunks : list chunk) :
  page_chunks parse_html html page_url = Ok chunks →
  ∀ c, c ∈ chunks → url c = page_url ∧ Py.len (text c) ≤ 2000.
Proof.
  unfold page_chunks.
  destruct (extract_meaningful_content _ _) as [[page_title page_text]|];
    cbn [mbind result_bind]; [|discriminate].
  destruct (negb _); [|by intros [= <-] c ?%elem_of_nil].
  destruct (chunk_page_content_ok page_title page_text page_url) as (docs & -> & Hd & _).
  intros [= <-] c Hin.
  apply list_elem_of_lookup in Hin as [i Hi].
  apply list_lookup_imap_Some in Hi as (doc & Hdoc & ->). simpl. split; [done|].
  rewrite Forall_forall in Hd. apply Hd. by eapply list_elem_of_lookup_2.
Qed.

(** X20. At every loop head, each chunk collected in [all_chunked_data]
    carries the URL of a page that [fetch_page] returned, and its text has at
    most 2000 characters. *)
Theorem collected_chunks_come_from_pages (w : W) (st : @state W) :
  reach w st →
  ∀ c, c ∈ all_chunked_data st →
       (∃ html, (url c, html) ∈ pages_fetched (trace st)) ∧ Py.len (text c) ≤ 2000.
Proof.
  intros Hr. pattern st. revert st Hr. apply reachable_invariant; cbv beta.
  - by intros c ?%elem_of_nil.
  - intros st st' current_url urls _ IH Hq Hv Hb c.
    destruct (loop_body_normal _ _ _ _ _ _ st st' current_url urls Hq Hv Hb)
      as (html_content & _ & _ & Hcase).
    destruct Hcase as [(_ & -> & _ & _ & ->)
                      |(html & chunks & links & -> & Ht & Hp & _ & -> & _ & _ & ->)];
      rewrite pages_fetched_app.
    + intros [[h Hh] Hlen]%IH. split; [|done]. exists h. apply elem_of_app. by left.
    + intros [[[h Hh] Hlen]%IH|Hin]%elem_of_app.
      * split; [|done]. exists h. apply elem_of_app. by left.
      * destruct (page_chunks_ok html current_url chunks Hp c Hin) as [-> Hlen].
        split; [|done]. exists html. apply elem_of_app. right.
        cbn -[truthy]. rewrite Ht. apply list_elem_of_here.
Qed.

End Collected.

Lemma after_page_reachable :
  reachable Single.fetch_page Single.parse_html Example.urljoin Example.first_seen
            Example.accept Example.accept BASE_URL MAX_PAGES_TO_SCRAPE ()
            Single.after_page.
Proof.
  eapply reach_step; [apply reach_initial|]. split; [reflexivity|]. by vm_compute.
Defined.

Lemma collected_chunks_come_from_pages_witness :
  all_chunked_data Single.after_page =
    [mkChunk BASE_URL "No Title" 0 "Made with care in Canada"] ∧
  ∀ c, c ∈ all_chunked_data Single.after_page →
       (∃ html, (url c, html) ∈ pages_fetched (trace Single.after_page)) ∧
       Py.len (text c) ≤ 2000.
Proof.
  split; [by vm_compute|].
  exact (collected_chunks_come_from_pages _ _ _ _ _ _ _ _ _ _ after_page_reachable).
Defined.
